(** * mailing2fast-fastapi: the dispatch queue engine

    A shallow embedding of [queue.py], [sender.py], [worker.py] and the parts
    of [models.py] and [settings.py] they use, followed by the properties of
    the queue, the retry policy, the rate limiter and the worker loop.

    Modelling conventions.
    - A [datetime] is an integer number of microseconds (its resolution);
      [timedelta(seconds=d)] is [d * 1000000].  The float returned by
      [datetime.timestamp()] (the score of a retry entry) is taken to be that
      same integer: scores are compared exactly.  The range limits of
      [datetime] (year 9999) and [timedelta] are not modelled: time is
      unbounded.
    - The Redis store holds the JSON text of a [QueuedEmail]; pydantic's
      [model_dump_json] and [model_validate_json] are taken to be inverse to
      each other, so a segment holds [QueuedEmail] records.  The three keys
      [queue_name], [retry_queue_name] and [dead_letter_queue_name] are taken
      to be distinct (as their defaults are), one field of [Store] each.
    - Redis commands always succeed (no connection error is modelled).
    - An [async def] is a computation in the monad [M]: state passing over
      the whole [World], with Python's exceptions.  [CancelledError] derives
      from [BaseException], so [except Exception] does not catch it.
    - [Task.cancel()] sets [cancel_requested]; the cancelled task gets
      [CancelledError] at the next suspension point it runs into (a Redis
      command, a sleep, the transport), which uses the request up.
    - The clock is a mocked clock: it moves when the program sleeps (by
      exactly the requested duration), when the transport or a blocking pop
      takes time, and when the environment moves it between calls.
    - Logging is not modelled; [trace] records instead the commands sent to
      the store, the calls of the sender and the sleeps, in order. *)

From Stdlib Require Import ZArith List String Bool Arith Lia Sorted.
Import ListNotations.
Open Scope Z_scope.

(** ** Time *)

Definition datetime := Z.

Definition timedelta_seconds (s : Z) : Z := s * 1000000.
Definition timedelta_minutes (m : Z) : Z := timedelta_seconds (m * 60).
Definition timedelta_hours (h : Z) : Z := timedelta_seconds (h * 3600).

(** ** models.py *)

Inductive EmailStatus : Set :=
| PENDING | QUEUED | SENDING | SENT | FAILED | RETRYING.

Module EmailMessage.
(** The fields read by the queue, the sender and the worker.  Recipients are
    kept as plain address strings. *)
Record t : Set := mk {
  to : list string;
  subject : string;
  body : option string;
  html : option string;
  template_name : option string;
  priority : string;
  smtp_account : option string
}.
End EmailMessage.

Module EmailResult.
Record t : Set := mk {
  status : EmailStatus;
  message_id : option string;
  error : option string;
  sent_at : option datetime;
  retry_count : Z;
  smtp_account : option string
}.

Definition is_success (r : t) : bool :=
  match status r with SENT => true | _ => false end.

Definition is_failed (r : t) : bool :=
  match status r with FAILED => true | _ => false end.
End EmailResult.

Module QueuedEmail.
Record t : Set := mk {
  email : EmailMessage.t;
  queued_at : datetime;
  retry_count : Z;
  last_error : option string;
  next_retry_at : option datetime
}.
End QueuedEmail.

Definition EmailMessage_eq_dec (a b : EmailMessage.t) : {a = b} + {a <> b}.
Proof.
  repeat decide equality.
Defined.

Definition QueuedEmail_eq_dec (a b : QueuedEmail.t) : {a = b} + {a <> b}.
Proof.
  decide equality;
    try apply EmailMessage_eq_dec;
    try apply Z.eq_dec;
    repeat decide equality.
Defined.

(** ** settings.py *)

Module SMTPAccountSettings.
Record t : Set := mk {
  host : string;
  port : Z;
  username : string;
  password : string;
  from_email : string
}.
End SMTPAccountSettings.

Module QueueSettings.
Record t : Set := mk {
  max_retries : Z;
  retry_delay : Z;
  worker_poll_interval : Z;
  batch_size : Z
}.
End QueueSettings.

Module RateLimitSettings.
Record t : Set := mk {
  enabled : bool;
  max_emails_per_hour : Z;
  max_emails_per_minute : option Z
}.
End RateLimitSettings.

Module MailSettings.
(** [smtp_accounts] is a Python dict: keys are unique and keep their
    insertion order, which the error text of [get_smtp_account] shows. *)
Record t : Set := mk {
  smtp_accounts : list (string * SMTPAccountSettings.t);
  default_account : string;
  queue : QueueSettings.t;
  rate_limit : RateLimitSettings.t
}.
End MailSettings.

(** Python truthiness of an [Optional[str]]: [None] and the empty string are
    false. *)
Definition str_or (o : option string) (default : string) : string :=
  match o with
  | Some s => if String.eqb s EmptyString then default else s
  | None => default
  end.

Definition truthy_str (o : option string) : bool :=
  match o with
  | Some s => negb (String.eqb s EmptyString)
  | None => false
  end.

Fixpoint dict_get {V : Type} (d : list (string * V)) (k : string) : option V :=
  match d with
  | [] => None
  | (k', v) :: d' => if String.eqb k' k then Some v else dict_get d' k
  end.

Fixpoint join (sep : string) (l : list string) : string :=
  match l with
  | [] => EmptyString
  | [s] => s
  | s :: l' => (s ++ sep ++ join sep l')%string
  end.

(** [MailSettings.get_smtp_account]: the account, or the text of the
    [ValueError] it raises. *)
Definition get_smtp_account (cfg : MailSettings.t) (account_name : option string)
  : SMTPAccountSettings.t + string :=
  let name := str_or account_name (MailSettings.default_account cfg) in
  match dict_get (MailSettings.smtp_accounts cfg) name with
  | None =>
      let available := join ", " (map fst (MailSettings.smtp_accounts cfg)) in
      inr ("SMTP account '" ++ name ++ "' not found. Available accounts: "
             ++ available)%string
  | Some acct => inl acct
  end.

(** ** The Redis store *)

Record Store : Set := mkStore {
  main_q : list QueuedEmail.t;              (* list at queue_name, left end first *)
  retry_q : list (QueuedEmail.t * Z);       (* sorted set at retry_queue_name *)
  dlq_q : list QueuedEmail.t                (* list at dead_letter_queue_name *)
}.

Definition empty_store : Store := mkStore [] [] [].

Section RedisList.
Context {A : Type}.

Definition lpush (x : A) (l : list A) : list A := x :: l.

Definition rpush (x : A) (l : list A) : list A := l ++ [x].

(** RPOP: the element at the right end, if any, and what is left. *)
Fixpoint rpop (l : list A) : option A * list A :=
  match l with
  | [] => (None, [])
  | [x] => (Some x, [])
  | x :: l' => let (r, rest) := rpop l' in (r, x :: rest)
  end.
End RedisList.

(** A sorted set: at most one entry per member, kept in increasing score
  order.  Redis orders members of equal score by their bytes; here a new
  entry goes after the entries of the same score, and nothing below depends
  on the order among equal scores. *)
Section RedisSortedSet.
Definition zset := list (QueuedEmail.t * Z).

Fixpoint zinsert (m : QueuedEmail.t) (score : Z) (z : zset) : zset :=
  match z with
  | [] => [(m, score)]
  | (m', s') :: z' =>
      if score <? s' then (m, score) :: z else (m', s') :: zinsert m score z'
  end.

Definition zrem (m : QueuedEmail.t) (z : zset) : zset :=
  filter (fun p => if QueuedEmail_eq_dec (fst p) m then false else true) z.

(** ZADD key {m: score}: adds the member or moves it to its new score. *)
Definition zadd (m : QueuedEmail.t) (score : Z) (z : zset) : zset :=
  zinsert m score (zrem m z).

Definition in_range (lo hi : Z) (p : QueuedEmail.t * Z) : bool :=
  (lo <=? snd p) && (snd p <=? hi).

Definition zrangebyscore (lo hi : Z) (z : zset) : list QueuedEmail.t :=
  map fst (filter (in_range lo hi) z).

Definition zremrangebyscore (lo hi : Z) (z : zset) : zset :=
  filter (fun p => negb (in_range lo hi p)) z.
End RedisSortedSet.

(** ** sender.py: the state of a RateLimiter *)

Module RateLimiter.
Record t : Set := mk {
  max_per_hour : Z;
  max_per_minute : option Z;
  hourly_timestamps : list datetime;     (* deque, left end first *)
  minute_timestamps : list datetime
}.

(** [RateLimiter.__init__] *)
Definition init (max_per_hour : Z) (max_per_minute : option Z) : t :=
  mk max_per_hour max_per_minute [] [].
End RateLimiter.

(** Truthiness of [max_per_minute : Optional[int]]. *)
Definition truthy_int (o : option Z) : bool :=
  match o with
  | Some m => negb (m =? 0)
  | None => false
  end.

(** ** The world: store, clock and the objects of one process *)

Inductive Segment : Set := Main | Dlq.

Inductive Event : Set :=
| Ping
| Lpush (seg : Segment) (q : QueuedEmail.t)
| Rpush (seg : Segment) (q : QueuedEmail.t)
| Rpop (seg : Segment) (r : option QueuedEmail.t)
| Zadd (q : QueuedEmail.t) (score : Z)
| Zrangebyscore (lo hi : Z) (r : list QueuedEmail.t)
| Zremrangebyscore (lo hi : Z)
| CallSendEmail (e : EmailMessage.t)
| Sleep (d : Z)
| TaskCancel
| Disconnect.

Record World : Set := mkWorld {
  redis : Store;
  clock : datetime;
  rate_limiter : option RateLimiter.t;   (* EmailSender.rate_limiter *)
  running : bool;                        (* EmailWorker._running *)
  connected : bool;                      (* EmailQueue._redis is not None *)
  cancel_requested : bool;               (* cancel() was called on the running task *)
  smtp_calls : nat;                      (* transport calls made so far *)
  outbox : list (EmailMessage.t * string);  (* accepted by the transport, newest first *)
  trace : list Event                     (* oldest first *)
}.

Definition with_redis (f : Store -> Store) (w : World) : World :=
  mkWorld (f (redis w)) (clock w) (rate_limiter w) (running w) (connected w)
          (cancel_requested w) (smtp_calls w) (outbox w) (trace w).

Definition with_clock (t : datetime) (w : World) : World :=
  mkWorld (redis w) t (rate_limiter w) (running w) (connected w)
          (cancel_requested w) (smtp_calls w) (outbox w) (trace w).

Definition with_rate_limiter (rl : option RateLimiter.t) (w : World) : World :=
  mkWorld (redis w) (clock w) rl (running w) (connected w)
          (cancel_requested w) (smtp_calls w) (outbox w) (trace w).

Definition with_running (b : bool) (w : World) : World :=
  mkWorld (redis w) (clock w) (rate_limiter w) b (connected w)
          (cancel_requested w) (smtp_calls w) (outbox w) (trace w).

Definition with_connected (b : bool) (w : World) : World :=
  mkWorld (redis w) (clock w) (rate_limiter w) (running w) b
          (cancel_requested w) (smtp_calls w) (outbox w) (trace w).

Definition with_cancel_requested (b : bool) (w : World) : World :=
  mkWorld (redis w) (clock w) (rate_limiter w) (running w) (connected w)
          b (smtp_calls w) (outbox w) (trace w).

Definition with_smtp_calls (n : nat) (w : World) : World :=
  mkWorld (redis w) (clock w) (rate_limiter w) (running w) (connected w)
          (cancel_requested w) n (outbox w) (trace w).

Definition with_outbox (o : list (EmailMessage.t * string)) (w : World) : World :=
  mkWorld (redis w) (clock w) (rate_limiter w) (running w) (connected w)
          (cancel_requested w) (smtp_calls w) o (trace w).

Definition emit (ev : Event) (w : World) : World :=
  mkWorld (redis w) (clock w) (rate_limiter w) (running w) (connected w)
          (cancel_requested w) (smtp_calls w) (outbox w) (trace w ++ [ev]).

(** ** The monad of coroutines *)

Inductive exn : Set :=
| Exception (msg : string)
| CancelledError.

Inductive outcome (A : Type) : Type :=
| Ret (a : A)
| Raise (e : exn)
| OutOfFuel.
Arguments Ret {A} a.
Arguments Raise {A} e.
Arguments OutOfFuel {A}.

Definition M (A : Type) : Type := World -> outcome A * World.

Definition ret {A} (a : A) : M A := fun w => (Ret a, w).

Definition raise {A} (e : exn) : M A := fun w => (Raise e, w).

(** What a raising computation did to the world stays done. *)
Definition bind {A B} (m : M A) (k : A -> M B) : M B :=
  fun w =>
    match m w with
    | (Ret a, w') => k a w'
    | (Raise e, w') => (Raise e, w')
    | (OutOfFuel, w') => (OutOfFuel, w')
    end.

Notation "x <- m ;; k" := (bind m (fun x => k))
  (at level 61, m at next level, right associativity).
Notation "m ;; k" := (bind m (fun _ => k))
  (at level 61, right associativity).

(** [try: m  except Exception as e: h (str e)] *)
Definition try_except {A} (m : M A) (h : string -> M A) : M A :=
  fun w =>
    match m w with
    | (Raise (Exception msg), w') => h msg w'
    | r => r
    end.

Definition modify (f : World -> World) : M unit := fun w => (Ret tt, f w).

Definition utcnow : M datetime := fun w => (Ret (clock w), w).

(** A suspension point: a cancelled task gets [CancelledError] thrown into
    the [await] it is resumed at, once. *)
Definition checkpoint : M unit :=
  fun w =>
    if cancel_requested w
    then (Raise CancelledError, with_cancel_requested false w)
    else (Ret tt, w).

(** [await asyncio.sleep(d)], [d] in microseconds. *)
Definition sleep (d : Z) : M unit :=
  checkpoint ;;
  modify (fun w => emit (Sleep d) (with_clock (clock w + d) w)).


(** ** The environment of a process *)

(** What the transport answers to one delivery (building the MIME message and
    the SMTP session of [_send_smtp]): the message id, or the text of the
    exception; and how long it took. *)
Inductive TransportReply : Set :=
| Accepted (message_id : string) (elapsed : Z)
| Rejected (error : string) (elapsed : Z).

Record Env : Type := mkEnv {
  config : MailSettings.t;
  (* jinja_env: rendering the template of a message gives its text or the
     text of the exception raised; None when templates are disabled *)
  jinja_env : option (EmailMessage.t -> string + string);
  (* the answer to the k-th transport call *)
  transport : nat -> EmailMessage.t -> SMTPAccountSettings.t -> TransportReply
}.

Section Program.

Variable env : Env.

Definition queue_config : QueueSettings.t := MailSettings.queue (config env).

(** ** queue.py: EmailQueue *)

(** [connect]: the client object is in place before the PING is awaited. *)
Definition connect : M unit :=
  fun w =>
    if connected w then (Ret tt, w)
    else (modify (with_connected true) ;; checkpoint ;; modify (emit Ping)) w.

Definition _ensure_connected : M unit :=
  fun w => if connected w then (Ret tt, w) else connect w.

(** [disconnect] is awaited by the caller of [stop], not by the worker's
    task: it is no suspension point of that task. *)
Definition disconnect : M unit :=
  fun w =>
    if connected w
    then (Ret tt, emit Disconnect (with_connected false w))
    else (Ret tt, w).

Definition store_push (left : bool) (seg : Segment) (q : QueuedEmail.t) (s : Store) : Store :=
  let push := if left then lpush q else rpush q in
  match seg with
  | Main => mkStore (push (main_q s)) (retry_q s) (dlq_q s)
  | Dlq => mkStore (main_q s) (retry_q s) (push (dlq_q s))
  end.

Definition redis_lpush (seg : Segment) (q : QueuedEmail.t) : M unit :=
  checkpoint ;;
  modify (fun w => emit (Lpush seg q) (with_redis (store_push true seg q) w)).

Definition redis_rpush (seg : Segment) (q : QueuedEmail.t) : M unit :=
  checkpoint ;;
  modify (fun w => emit (Rpush seg q) (with_redis (store_push false seg q) w)).

Definition redis_rpop_main : M (option QueuedEmail.t) :=
  checkpoint ;;
  fun w =>
    let (r, rest) := rpop (main_q (redis w)) in
    (Ret r,
     emit (Rpop Main r)
       (with_redis (fun s => mkStore rest (retry_q s) (dlq_q s)) w)).

(** BRPOP with a timeout in seconds: nobody pushes while this process waits,
    so an empty list is still empty when the timeout has passed. *)
Definition redis_brpop_main (timeout : Z) : M (option QueuedEmail.t) :=
  checkpoint ;;
  fun w =>
    match rpop (main_q (redis w)) with
    | (None, _) =>
        (Ret None,
         emit (Rpop Main None)
           (with_clock (clock w + timedelta_seconds timeout) w))
    | (Some q, rest) =>
        (Ret (Some q),
         emit (Rpop Main (Some q))
           (with_redis (fun s => mkStore rest (retry_q s) (dlq_q s)) w))
    end.

Definition redis_zadd (q : QueuedEmail.t) (score : Z) : M unit :=
  checkpoint ;;
  modify (fun w =>
    emit (Zadd q score)
      (with_redis (fun s => mkStore (main_q s) (zadd q score (retry_q s)) (dlq_q s)) w)).

Definition redis_zrangebyscore (lo hi : Z) : M (list QueuedEmail.t) :=
  checkpoint ;;
  fun w =>
    let r := zrangebyscore lo hi (retry_q (redis w)) in
    (Ret r, emit (Zrangebyscore lo hi r) w).

Definition redis_zremrangebyscore (lo hi : Z) : M unit :=
  checkpoint ;;
  modify (fun w =>
    emit (Zremrangebyscore lo hi)
      (with_redis
         (fun s => mkStore (main_q s) (zremrangebyscore lo hi (retry_q s)) (dlq_q s)) w)).

Definition enqueue (email : EmailMessage.t) (priority : bool) : M unit :=
  _ensure_connected ;;
  now <- utcnow ;;
  let queued_email := QueuedEmail.mk email now 0 None None in
  if priority
  then redis_rpush Main queued_email
  else redis_lpush Main queued_email.

Definition dequeue (timeout : Z) : M (option QueuedEmail.t) :=
  _ensure_connected ;;
  if timeout =? 0
  then redis_rpop_main
  else redis_brpop_main timeout.

Definition move_to_dlq (queued_email : QueuedEmail.t) : M unit :=
  _ensure_connected ;;
  redis_lpush Dlq queued_email.

(** The delay in seconds before attempt [n + 1], [n] the attempt count after
    the increment.  For [n < 1] Python's [2 ** (n - 1)] is a float; the
    integer model is used for [n >= 1] only. *)
Definition backoff_delay (n : Z) : Z :=
  QueueSettings.retry_delay queue_config * 2 ^ (n - 1).

Definition requeue_for_retry (queued_email : QueuedEmail.t) (error : string) : M unit :=
  _ensure_connected ;;
  let retry_count := QueuedEmail.retry_count queued_email + 1 in
  let last_error := Some error in
  let delay := backoff_delay retry_count in
  now <- utcnow ;;
  let next_retry_at := now + timedelta_seconds delay in
  let queued_email :=
    QueuedEmail.mk (QueuedEmail.email queued_email)
                   (QueuedEmail.queued_at queued_email)
                   retry_count last_error (Some next_retry_at) in
  if retry_count >=? QueueSettings.max_retries queue_config
  then move_to_dlq queued_email
  else redis_zadd queued_email next_retry_at.

Definition get_retry_emails : M (list QueuedEmail.t) :=
  _ensure_connected ;;
  now <- utcnow ;;
  results <- redis_zrangebyscore 0 now ;;
  match results with
  | [] => ret []
  | _ => redis_zremrangebyscore 0 now ;; ret results
  end.

Definition get_queue_size : M Z :=
  _ensure_connected ;; fun w => (Ret (Z.of_nat (List.length (main_q (redis w)))), w).

Definition get_retry_queue_size : M Z :=
  _ensure_connected ;; fun w => (Ret (Z.of_nat (List.length (retry_q (redis w)))), w).

Definition get_dlq_size : M Z :=
  _ensure_connected ;; fun w => (Ret (Z.of_nat (List.length (dlq_q (redis w)))), w).

(** ** sender.py: RateLimiter *)

(** [while d and d[0] < bound: d.popleft()] *)
Fixpoint drop_older (bound : datetime) (d : list datetime) : list datetime :=
  match d with
  | [] => []
  | t :: d' => if t <? bound then drop_older bound d' else d
  end.

Definition _cleanup_timestamps (now : datetime) (rl : RateLimiter.t) : RateLimiter.t :=
  let hour_ago := now - timedelta_hours 1 in
  let hourly := drop_older hour_ago (RateLimiter.hourly_timestamps rl) in
  let minute :=
    if truthy_int (RateLimiter.max_per_minute rl)
    then drop_older (now - timedelta_minutes 1) (RateLimiter.minute_timestamps rl)
    else RateLimiter.minute_timestamps rl in
  RateLimiter.mk (RateLimiter.max_per_hour rl) (RateLimiter.max_per_minute rl)
                 hourly minute.

(** The limiter a method of [RateLimiter] runs on. *)
Definition self_limiter : M RateLimiter.t :=
  fun w =>
    match rate_limiter w with
    | Some rl => (Ret rl, w)
    | None => (Raise (Exception "'NoneType' object has no attribute 'acquire'"), w)
    end.

Definition update_limiter (f : RateLimiter.t -> RateLimiter.t) : M unit :=
  modify (fun w => with_rate_limiter (option_map f (rate_limiter w)) w).

Definition out_of_fuel {A} : M A := fun w => (OutOfFuel, w).

(** The hourly [while] loop of [acquire]; it returns the last value of the
    local [now].  [hourly_timestamps[0]] on an empty deque is an IndexError. *)
Fixpoint wait_hourly (fuel : nat) (now : datetime) : M datetime :=
  rl <- self_limiter ;;
  if Z.of_nat (List.length (RateLimiter.hourly_timestamps rl)) >=? RateLimiter.max_per_hour rl
  then
    match fuel with
    | O => out_of_fuel
    | S fuel' =>
        match RateLimiter.hourly_timestamps rl with
        | [] => raise (Exception "deque index out of range")
        | oldest :: _ =>
            let wait_until := oldest + timedelta_hours 1 in
            let wait := wait_until - now in
            if wait >? 0
            then
              sleep wait ;;
              now' <- utcnow ;;
              update_limiter (_cleanup_timestamps now') ;;
              wait_hourly fuel' now'
            else ret now
        end
    end
  else ret now.

(** The per-minute [while] loop, entered when [max_per_minute] is truthy. *)
Fixpoint wait_minute (fuel : nat) (max_per_minute : Z) (now : datetime) : M datetime :=
  rl <- self_limiter ;;
  if Z.of_nat (List.length (RateLimiter.minute_timestamps rl)) >=? max_per_minute
  then
    match fuel with
    | O => out_of_fuel
    | S fuel' =>
        match RateLimiter.minute_timestamps rl with
        | [] => raise (Exception "deque index out of range")
        | oldest :: _ =>
            let wait_until := oldest + timedelta_minutes 1 in
            let wait := wait_until - now in
            if wait >? 0
            then
              sleep wait ;;
              now' <- utcnow ;;
              update_limiter (_cleanup_timestamps now') ;;
              wait_minute fuel' max_per_minute now'
            else ret now
        end
    end
  else ret now.

(** [self.hourly_timestamps.append(now)], and the same for the minute deque
    when [max_per_minute] is truthy. *)
Definition record_send (now : datetime) (rl : RateLimiter.t) : RateLimiter.t :=
  RateLimiter.mk (RateLimiter.max_per_hour rl) (RateLimiter.max_per_minute rl)
    (RateLimiter.hourly_timestamps rl ++ [now])
    (if truthy_int (RateLimiter.max_per_minute rl)
     then RateLimiter.minute_timestamps rl ++ [now]
     else RateLimiter.minute_timestamps rl).

(** [acquire] with [fuel] turns of each loop at most.  The lock is free: one
    task at a time runs in this model. *)
Definition acquire_with (fuel : nat) : M unit :=
  now <- utcnow ;;
  update_limiter (_cleanup_timestamps now) ;;
  now <- wait_hourly fuel now ;;
  rl <- self_limiter ;;
  now <- (match RateLimiter.max_per_minute rl with
          | Some m => if truthy_int (Some m) then wait_minute fuel m now else ret now
          | None => ret now
          end) ;;
  update_limiter (record_send now).

(** Under the mocked clock a loop sleeps once at most, so it ends within two
    turns ([wait_hourly_enough], [wait_minute_enough]); more fuel changes
    nothing ([acquire_fuel_enough]). *)
Definition acquire : M unit := acquire_with 2.

(** ** sender.py: EmailSender *)

(** [EmailSender.__init__]: the limiter of a new sender. *)
Definition new_rate_limiter : option RateLimiter.t :=
  let rl := MailSettings.rate_limit (config env) in
  if RateLimitSettings.enabled rl
  then Some (RateLimiter.init (RateLimitSettings.max_emails_per_hour rl)
                              (RateLimitSettings.max_emails_per_minute rl))
  else None.

Definition endswith (s suffix : string) : bool :=
  let n := String.length s in
  let m := String.length suffix in
  (m <=? n)%nat && String.eqb (substring (n - m) m s) suffix.

Definition _render_template (email : EmailMessage.t) : M EmailMessage.t :=
  match jinja_env env with
  | None => raise (Exception "Templates are not enabled in configuration")
  | Some render =>
      match EmailMessage.template_name email with
      | None => ret email
      | Some name =>
          if String.eqb name EmptyString then ret email
          else
            match render email with
            | inr msg => raise (Exception msg)
            | inl rendered =>
                if endswith name ".html"
                then ret (EmailMessage.mk
                            (EmailMessage.to email) (EmailMessage.subject email)
                            (EmailMessage.body email) (Some rendered)
                            (EmailMessage.template_name email)
                            (EmailMessage.priority email)
                            (EmailMessage.smtp_account email))
                else ret (EmailMessage.mk
                            (EmailMessage.to email) (EmailMessage.subject email)
                            (Some rendered) (EmailMessage.html email)
                            (EmailMessage.template_name email)
                            (EmailMessage.priority email)
                            (EmailMessage.smtp_account email))
            end
      end
  end.

(** [_build_mime_message] followed by [_send_smtp]: one call of the
    transport.  A session cancelled while it is awaited delivers nothing. *)
Definition _send_smtp (email : EmailMessage.t) (smtp_account : SMTPAccountSettings.t)
  : M string :=
  checkpoint ;;
  fun w =>
    let k := smtp_calls w in
    match transport env k email smtp_account with
    | Accepted message_id elapsed =>
        (Ret message_id,
         with_outbox ((email, message_id) :: outbox w)
           (with_clock (clock w + elapsed) (with_smtp_calls (S k) w)))
    | Rejected error elapsed =>
        (Raise (Exception error),
         with_clock (clock w + elapsed) (with_smtp_calls (S k) w))
    end.

(** [if self.rate_limiter: await self.rate_limiter.acquire()] *)
Definition rate_limit_gate : M unit :=
  fun w =>
    match rate_limiter w with
    | Some _ => acquire w
    | None => (Ret tt, w)
    end.

(** [if email.template_name: email = await self._render_template(email)] *)
Definition render_stage (email : EmailMessage.t) : M EmailMessage.t :=
  if truthy_str (EmailMessage.template_name email)
  then _render_template email
  else ret email.

(** The [try] statement of [send_email].  The handler reads
    [email.smtp_account], which rendering does not change. *)
Definition send_email_try (email : EmailMessage.t) : M EmailResult.t :=
  try_except
    (match get_smtp_account (config env) (EmailMessage.smtp_account email) with
     | inr msg => raise (Exception msg)
     | inl smtp_account =>
         email <- render_stage email ;;
         message_id <- _send_smtp email smtp_account ;;
         now <- utcnow ;;
         ret (EmailResult.mk SENT (Some message_id) None (Some now) 0
                (Some (str_or (EmailMessage.smtp_account email)
                              (MailSettings.default_account (config env)))))
     end)
    (fun msg =>
       ret (EmailResult.mk FAILED None (Some msg) None 0
              (Some (str_or (EmailMessage.smtp_account email)
                            (MailSettings.default_account (config env)))))).

(** [send_email]; its parameter [wait_for_result] is not read by the source. *)
Definition send_email (email : EmailMessage.t) : M EmailResult.t :=
  rate_limit_gate ;;
  send_email_try email.

(** ** worker.py: EmailWorker *)

Definition _send_email (queued_email : QueuedEmail.t) : M unit :=
  try_except
    (modify (emit (CallSendEmail (QueuedEmail.email queued_email))) ;;
     result <- send_email (QueuedEmail.email queued_email) ;;
     if EmailResult.is_success result
     then ret tt
     else requeue_for_retry queued_email
            (str_or (EmailResult.error result) "Unknown error"))
    (fun msg => requeue_for_retry queued_email msg).

(** [for _ in range(n): ...] of [_process_main_queue] *)
Fixpoint process_batch (n : nat) : M unit :=
  match n with
  | O => ret tt
  | S n' =>
      queued_email <- dequeue 0 ;;
      match queued_email with
      | None => ret tt
      | Some queued_email => _send_email queued_email ;; process_batch n'
      end
  end.

Definition _process_main_queue : M unit :=
  process_batch (Z.to_nat (QueueSettings.batch_size queue_config)).

(** [for queued_email in retry_emails: ...] of [_process_retry_queue] *)
Fixpoint retry_each (retry_emails : list QueuedEmail.t) : M unit :=
  match retry_emails with
  | [] => ret tt
  | queued_email :: rest => _send_email queued_email ;; retry_each rest
  end.

Definition _process_retry_queue : M unit :=
  retry_emails <- get_retry_emails ;;
  retry_each retry_emails.

Definition poll_interval : Z :=
  timedelta_seconds (QueueSettings.worker_poll_interval queue_config).

(** One turn of the [while] loop of [_process_loop] whose [try] block still
    has [body] and the sleep to run; [false] is [break]. *)
Definition loop_turn (body : M unit) : M bool :=
  fun w =>
    match (body ;; sleep poll_interval) w with
    | (Ret _, w') => (Ret true, w')
    | (Raise CancelledError, w') => (Ret false, w')
    | (Raise (Exception _), w') => (sleep poll_interval ;; ret true) w'
    | (OutOfFuel, w') => (OutOfFuel, w')
    end.

Definition poll_cycle : M unit :=
  _process_retry_queue ;; _process_main_queue.

Fixpoint _process_loop (fuel : nat) : M unit :=
  fun w =>
    if running w
    then
      match fuel with
      | O => (OutOfFuel, w)
      | S fuel' =>
          (continue <- loop_turn poll_cycle ;;
           if continue then _process_loop fuel' else ret tt) w
      end
    else (Ret tt, w).

(** The task of [_process_loop] suspended inside a turn: [rest] is what is
    left of that turn's [try] block before the sleep. *)
Definition suspended_loop (rest : M unit) (fuel : nat) : M unit :=
  continue <- loop_turn rest ;;
  if continue then _process_loop fuel else ret tt.

Definition start : M unit :=
  fun w =>
    if running w then (Ret tt, w)
    else (modify (with_running true) ;; connect) w.

(** [task.cancel()] then [await task] under [except CancelledError: pass].
    The task runs to its end in between; the request is gone afterwards. *)
Definition cancel_and_await (task : M unit) : M unit :=
  fun w =>
    match task (emit TaskCancel (with_cancel_requested true w)) with
    | (Raise CancelledError, w') => (Ret tt, with_cancel_requested false w')
    | (r, w') => (r, with_cancel_requested false w')
    end.

(** [stop]; [task] is [self._task]: what the task created by [start] has
    still to run, from the [await] it is suspended at. *)
Definition stop (task : option (M unit)) : M unit :=
  fun w =>
    if negb (running w) then (Ret tt, w)
    else
      (modify (with_running false) ;;
       match task with
       | Some t => cancel_and_await t
       | None => ret tt
       end ;;
       disconnect) w.

End Program.

(** ** Vocabulary of the statements *)

(** The world once [_ensure_connected] has returned. *)
Definition ensured (w : World) : World :=
  if connected w then w else emit Ping (with_connected true w).

(** The record [requeue_for_retry] writes to the store for [queued_email],
    [now] being the time it reads. *)
Definition failed_attempt (env : Env) (queued_email : QueuedEmail.t) (error : string)
  (now : datetime) : QueuedEmail.t :=
  let n := QueuedEmail.retry_count queued_email + 1 in
  QueuedEmail.mk (QueuedEmail.email queued_email)
                 (QueuedEmail.queued_at queued_email)
                 n (Some error)
                 (Some (now + timedelta_seconds (backoff_delay env n))).


(** No entry of the retry set has used up its attempts. *)
Definition retry_below_max (env : Env) (s : Store) : Prop :=
  Forall (fun p => QueuedEmail.retry_count (fst p)
                   < QueueSettings.max_retries (queue_config env))
         (retry_q s).


(** ** Sample data *)

Definition sample_account : SMTPAccountSettings.t :=
  SMTPAccountSettings.mk "smtp.example.com" 587 "mailer" "secret" "noreply@example.com".

Definition sample_config (max_retries retry_delay batch_size : Z) : MailSettings.t :=
  MailSettings.mk [("default"%string, sample_account)] "default"
    (QueueSettings.mk max_retries retry_delay 1 batch_size)
    (RateLimitSettings.mk false 100 None).

Definition refusing : nat -> EmailMessage.t -> SMTPAccountSettings.t -> TransportReply :=
  fun _ _ _ => Rejected "connection refused" 0.


Definition sample_env (max_retries retry_delay batch_size : Z) : Env :=
  mkEnv (sample_config max_retries retry_delay batch_size) None refusing.

Definition mail (subject : string) : EmailMessage.t :=
  EmailMessage.mk ["user@example.com"%string] subject (Some "hello"%string) None None
    "normal" None.

Definition queued (subject : string) (queued_at : datetime) : QueuedEmail.t :=
  QueuedEmail.mk (mail subject) queued_at 0 None None.

(** A connected process with an empty store, no limiter and clock [t]. *)
Definition idle_world (t : datetime) : World :=
  mkWorld empty_store t None true true false 0 [] [].

(** ** Producers and consumers of the main list *)

(** A producer's calls of [enqueue], the environment setting the clock before
    each one. *)
Fixpoint enqueue_all (ops : list (datetime * EmailMessage.t * bool)) : M unit :=
  match ops with
  | [] => ret tt
  | (t, email, priority) :: rest =>
      modify (with_clock t) ;; enqueue email priority ;; enqueue_all rest
  end.

(** Up to [n] calls of [dequeue(timeout=0)], until one returns [None]. *)
Fixpoint dequeue_all (n : nat) : M (list QueuedEmail.t) :=
  match n with
  | O => ret []
  | S n' =>
      r <- dequeue 0 ;;
      match r with
      | None => ret []
      | Some q => rest <- dequeue_all n' ;; ret (q :: rest)
      end
  end.

(** The items of one priority lane, in the order they were enqueued. *)
Definition lane (high : bool) (ops : list (datetime * EmailMessage.t * bool))
  : list QueuedEmail.t :=
  map (fun op => QueuedEmail.mk (snd (fst op)) (fst (fst op)) 0 None None)
      (filter (fun op => Bool.eqb (snd op) high) ops).

(** The order of the specification: the high lane first, each lane first-in
    first-out. *)
Definition dequeues_fifo_lanes (ops : list (datetime * EmailMessage.t * bool))
  (w : World) : Prop :=
  exists w',
    (enqueue_all ops ;; dequeue_all (List.length ops)) w
    = (Ret (lane true ops ++ lane false ops), w').

(** ** Callers of [get_retry_emails] sharing one store

    [get_retry_emails] sends two commands, ZRANGEBYSCORE and, when the answer
    is not empty, ZREMRANGEBYSCORE; the store runs each command atomically
    and commands of other callers may come in between. *)

Inductive Caller : Set :=
| Reading (now : datetime)                                  (* about to read *)
| Removing (now : datetime) (results : list QueuedEmail.t)  (* about to remove *)
| Returned (emails : list QueuedEmail.t).

Definition caller_step (c : Caller) (z : zset) : Caller * zset :=
  match c with
  | Reading now =>
      match zrangebyscore 0 now z with
      | [] => (Returned [], z)
      | results => (Removing now results, z)
      end
  | Removing now results => (Returned results, zremrangebyscore 0 now z)
  | Returned emails => (Returned emails, z)
  end.

(** Two callers; the schedule says whose command the store runs next
    ([false]: the first caller's, [true]: the second's). *)
Fixpoint interleave (schedule : list bool) (a b : Caller) (z : zset)
  : Caller * Caller * zset :=
  match schedule with
  | [] => (a, b, z)
  | false :: rest => let (a', z') := caller_step a z in interleave rest a' b z'
  | true :: rest => let (b', z') := caller_step b z in interleave rest a b' z'
  end.

(** At-most-once hand-back as the specification has it: whatever the
    schedule, no entry is returned to both callers. *)
Definition hands_back_at_most_once (schedule : list bool) (now_a now_b : datetime)
  (z : zset) : Prop :=
  forall ra rb z',
    interleave schedule (Reading now_a) (Reading now_b) z
    = (Returned ra, Returned rb, z') ->
    forall m, In m ra -> ~ In m rb.

(** ** What a call of the sender may change *)

Definition is_sleep (ev : Event) : Prop :=
  match ev with Sleep _ => True | _ => False end.

(** [w'] differs from [w] in the clock, the limiter and the cancellation
    request at most, and by sleeps in the trace. *)
Record quiet (w w' : World) : Prop := mkQuiet {
  quiet_redis : redis w' = redis w;
  quiet_outbox : outbox w' = outbox w;
  quiet_smtp_calls : smtp_calls w' = smtp_calls w;
  quiet_running : running w' = running w;
  quiet_connected : connected w' = connected w;
  quiet_trace : exists t, trace w' = trace w ++ t /\ Forall is_sleep t
}.

(** The computation came to an end, and with [CancelledError] only if a
    cancellation was requested, which the exception uses up. *)
Definition settled {A} (w : World) (r : outcome A) (w' : World) : Prop :=
  match r with
  | Ret _ | Raise (Exception _) => cancel_requested w' = cancel_requested w
  | Raise CancelledError => cancel_requested w = true /\ cancel_requested w' = false
  | OutOfFuel => False
  end.

(** ** Reading a trace *)

(** The messages handed to [sender.send_email], in order. *)
Fixpoint sent_calls (t : list Event) : list EmailMessage.t :=
  match t with
  | [] => []
  | CallSendEmail e :: t' => e :: sent_calls t'
  | _ :: t' => sent_calls t'
  end.

(** The items popped from the main list, in order. *)
Fixpoint popped (t : list Event) : list QueuedEmail.t :=
  match t with
  | [] => []
  | Rpop Main (Some q) :: t' => q :: popped t'
  | _ :: t' => popped t'
  end.

Definition is_pop (ev : Event) : Prop :=
  match ev with Rpop _ _ => True | _ => False end.

(** Neither a pop nor a call of the sender. *)
Definition backstage (ev : Event) : Prop :=
  match ev with
  | Rpop _ _ | CallSendEmail _ => False
  | _ => True
  end.

(** The outcome of the delivery of [q], between [w] and [w'], is on record:
    the transport has accepted a message, or the item is in the dead-letter
    list or the retry set with one more attempt counted. *)
Definition outcome_recorded (q : QueuedEmail.t) (w w' : World) : Prop :=
  (exists email' message_id, outbox w' = (email', message_id) :: outbox w)
  \/ (exists q',
        QueuedEmail.email q' = QueuedEmail.email q /\
        QueuedEmail.retry_count q' = QueuedEmail.retry_count q + 1 /\
        (dlq_q (redis w') = q' :: dlq_q (redis w)
         \/ In q' (map fst (retry_q (redis w'))))).

(** A computation that does not write [EmailWorker._running]. *)
Definition keeps_running {A} (m : M A) : Prop :=
  forall w r w', m w = (r, w') -> running w' = running w.


(** A process whose sender has an hourly limit only. *)
Definition limited_world (max_per_hour : Z) (t : datetime) : World :=
  mkWorld empty_store t (Some (RateLimiter.init max_per_hour None))
          true true false 0 [] [].

(** The permits granted in the hour that ends at [now], the instant one hour
    back left out. *)
Definition grants_in_trailing_hour (now : datetime) (grants : list datetime) : nat :=
  List.length
    (filter (fun g => (now - timedelta_hours 1 <? g) && (g <=? now)) grants).

(** The hourly timestamps of the limiter of a world. *)
Definition hourly_window (w : World) : list datetime :=
  match rate_limiter w with
  | Some rl => RateLimiter.hourly_timestamps rl
  | None => []
  end.

(** ** What the worker may do to the store

    Between [w] and [w'] the dead-letter list has only gained items at its
    head, the main list has only lost items at its right end, the outbox has
    only gained messages, the transport has not been called fewer times, and
    the retry set has kept its members distinct and free of used-up items if
    it was so. *)
Definition worker_step (env : Env) (w w' : World) : Prop :=
  (exists l, dlq_q (redis w') = l ++ dlq_q (redis w)) /\
  (exists l, main_q (redis w) = main_q (redis w') ++ l) /\
  (exists o, outbox w' = o ++ outbox w) /\
  (smtp_calls w <= smtp_calls w')%nat /\
  (retry_below_max env (redis w) -> retry_below_max env (redis w')) /\
  (NoDup (map fst (retry_q (redis w))) -> NoDup (map fst (retry_q (redis w')))).

Definition respects (env : Env) {A} (m : M A) : Prop :=
  forall w r w', m w = (r, w') -> worker_step env w w'.

(** ** settings.py: validators and lookups *)

(** [RateLimitSettings.validate_max_per_hour]: the value, or the text of the
    [ValueError]. *)
Definition validate_max_per_hour (v : Z) : Z + string :=
  if v <=? 0
  then inr "max_emails_per_hour must be greater than 0"%string
  else inl v.

(** [RateLimitSettings.validate_max_per_minute] *)
Definition validate_max_per_minute (v : option Z) : option Z + string :=
  match v with
  | Some m =>
      if m <=? 0
      then inr "max_emails_per_minute must be greater than 0"%string
      else inl v
  | None => inl v
  end.

(** The maxima of a limiter are values the validators let through, as they
    are when [EmailSender.__init__] builds it from validated settings. *)
Definition validated (rl : RateLimiter.t) : Prop :=
  validate_max_per_hour (RateLimiter.max_per_hour rl)
  = inl (RateLimiter.max_per_hour rl) /\
  validate_max_per_minute (RateLimiter.max_per_minute rl)
  = inl (RateLimiter.max_per_minute rl).

(** [MailSettings.has_account]: [account_name in self.smtp_accounts] *)
Definition has_account (cfg : MailSettings.t) (account_name : string) : bool :=
  existsb (fun k => String.eqb k account_name) (map fst (MailSettings.smtp_accounts cfg)).

(** ** Runs of the rate limiter *)

(** [k] calls of [acquire] in a row. *)
Fixpoint acquire_times (k : nat) : M unit :=
  match k with
  | O => ret tt
  | S k' => acquire ;; acquire_times k'
  end.


(** The limiter of a world has the maxima [H] and [mpm]. *)
Definition limiter_maxima (H : Z) (mpm : option Z) (w : World) : Prop :=
  exists rl, rate_limiter w = Some rl /\
             RateLimiter.max_per_hour rl = H /\ RateLimiter.max_per_minute rl = mpm.

(** ** queue.py: clearing a segment *)

(** The three keys of the store. *)
Inductive Key : Set := QueueName | RetryQueueName | DeadLetterQueueName.

(** DEL of one key. *)
Definition redis_delete (k : Key) : M unit :=
  checkpoint ;;
  modify (with_redis (fun s =>
    match k with
    | QueueName => mkStore [] (retry_q s) (dlq_q s)
    | RetryQueueName => mkStore (main_q s) [] (dlq_q s)
    | DeadLetterQueueName => mkStore (main_q s) (retry_q s) []
    end)).

Definition clear_queue : M unit :=
  _ensure_connected ;; redis_delete QueueName.

Definition clear_retry_queue : M unit :=
  _ensure_connected ;; redis_delete RetryQueueName.

Definition clear_dlq : M unit :=
  _ensure_connected ;; redis_delete DeadLetterQueueName.

(** The three sizes [get_queue_size], [get_retry_queue_size] and
    [get_dlq_size] report. *)
Definition sizes : M (Z * Z * Z) :=
  a <- get_queue_size ;; b <- get_retry_queue_size ;; c <- get_dlq_size ;;
  ret (a, b, c).

(** ** The store *)

Lemma rpop_snoc {A} (l : list A) (x : A) : rpop (l ++ [x]) = (Some x, l).
Proof.
  induction l as [|y l IH]; [reflexivity|].
  change ((y :: l) ++ [x]) with (y :: (l ++ [x])).
  cbn [rpop]. rewrite IH.
  destruct (l ++ [x]) eqn:E; [|reflexivity].
  destruct l; discriminate.
Qed.


Lemma zinsert_In m s z p : In p (zinsert m s z) <-> p = (m, s) \/ In p z.
Proof.
  induction z as [|[m' s'] z IH]; cbn [zinsert].
  - cbn. intuition congruence.
  - destruct (s <? s'); cbn [In]; [intuition congruence|].
    rewrite IH. cbn [In]. intuition congruence.
Qed.

Lemma zrem_In m z p : In p (zrem m z) <-> In p z /\ fst p <> m.
Proof.
  unfold zrem. rewrite filter_In.
  destruct (QueuedEmail_eq_dec (fst p) m); intuition congruence.
Qed.

Lemma zadd_In m s z p :
  In p (zadd m s z) <-> p = (m, s) \/ (In p z /\ fst p <> m).
Proof. unfold zadd. rewrite zinsert_In, zrem_In. reflexivity. Qed.

Lemma zadd_Forall (P : QueuedEmail.t * Z -> Prop) m s z :
  P (m, s) -> Forall P z -> Forall P (zadd m s z).
Proof.
  intros Hm Hz. apply Forall_forall. intros p Hp.
  apply zadd_In in Hp. destruct Hp as [->|[Hp _]]; [assumption|].
  rewrite Forall_forall in Hz. auto.
Qed.

Lemma zinsert_members m s z :
  forall x, In x (map fst (zinsert m s z)) <-> x = m \/ In x (map fst z).
Proof.
  intros x. rewrite !in_map_iff. split.
  - intros [p [<- Hp]]. apply zinsert_In in Hp. destruct Hp as [->|Hp]; [now left|].
    right. exists p. auto.
  - intros [->|[p [<- Hp]]].
    + exists (m, s). split; [reflexivity|]. apply zinsert_In. now left.
    + exists p. split; [reflexivity|]. apply zinsert_In. now right.
Qed.

Lemma zinsert_NoDup m s z :
  ~ In m (map fst z) -> NoDup (map fst z) -> NoDup (map fst (zinsert m s z)).
Proof.
  induction z as [|[m' s'] z IH]; cbn [zinsert map fst]; intros Hm Hz.
  - constructor; [intros []|constructor].
  - destruct (s <? s'); cbn [map fst].
    + constructor; assumption.
    + inversion Hz as [|? ? Hm' Hz']; subst.
      constructor.
      * rewrite zinsert_members. intros [->|H]; [|contradiction].
        apply Hm. now left.
      * apply IH; [|assumption]. intros H. apply Hm. now right.
Qed.

Lemma filter_members_NoDup (f : QueuedEmail.t * Z -> bool) (z : zset) :
  NoDup (map fst z) -> NoDup (map fst (filter f z)).
Proof.
  induction z as [|p z IH]; cbn [filter map]; intros Hz; [constructor|].
  inversion Hz as [|? ? Hp Hz']; subst.
  destruct (f p); cbn [map]; [|auto].
  constructor; [|auto].
  intros H. apply Hp. apply in_map_iff in H. destruct H as [p' [E H]].
  apply filter_In in H. apply in_map_iff. exists p'. tauto.
Qed.

(** ZADD keeps the members of a sorted set distinct. *)
Lemma zadd_NoDup m s z : NoDup (map fst z) -> NoDup (map fst (zadd m s z)).
Proof.
  intros Hz. unfold zadd. apply zinsert_NoDup.
  - intros H. apply in_map_iff in H. destruct H as [p [E H]].
    apply zrem_In in H. tauto.
  - apply filter_members_NoDup. assumption.
Qed.

Section Properties.

Variable env : Env.

(** ** queue.py *)

Lemma checkpoint_run w : cancel_requested w = false -> checkpoint w = (Ret tt, w).
Proof. unfold checkpoint. now intros ->. Qed.

Lemma _ensure_connected_run w :
  cancel_requested w = false -> _ensure_connected w = (Ret tt, ensured w).
Proof.
  intros Hc. unfold _ensure_connected, connect, ensured.
  destruct (connected w) eqn:E; [reflexivity|].
  unfold bind, modify. cbn. rewrite checkpoint_run; [reflexivity|exact Hc].
Qed.

Lemma ensured_cancel w : cancel_requested (ensured w) = cancel_requested w.
Proof. unfold ensured. now destruct (connected w). Qed.

Lemma ensured_redis w : redis (ensured w) = redis w.
Proof. unfold ensured. now destruct (connected w). Qed.

Lemma ensured_clock w : clock (ensured w) = clock w.
Proof. unfold ensured. now destruct (connected w). Qed.

Lemma ensured_connected w : connected (ensured w) = true.
Proof. unfold ensured. now destruct (connected w) eqn:E. Qed.

Lemma ensured_outbox w : outbox (ensured w) = outbox w.
Proof. unfold ensured. now destruct (connected w). Qed.

Lemma ensured_running w : running (ensured w) = running w.
Proof. unfold ensured. now destruct (connected w). Qed.

Lemma ensured_trace w :
  exists t, trace (ensured w) = trace w ++ t /\ Forall backstage t.
Proof.
  unfold ensured. destruct (connected w).
  - exists []. rewrite app_nil_r. auto.
  - exists [Ping]. split; [reflexivity|repeat constructor].
Qed.

(** Running a computation that is not cancelled, one step at a time. *)
Ltac not_cancelled :=
  cbn; rewrite ?ensured_cancel; cbn; first [assumption | reflexivity].

Ltac mstep :=
  first
    [ rewrite checkpoint_run by not_cancelled
    | rewrite _ensure_connected_run by not_cancelled
    | progress unfold bind, ret, raise, modify, utcnow
    | progress cbv beta iota ].

Ltac mrun := repeat mstep.

(** What [requeue_for_retry] does when it is not cancelled. *)
Lemma requeue_for_retry_run q error w :
  cancel_requested w = false ->
  requeue_for_retry env q error w =
    let q' := failed_attempt env q error (clock w) in
    let score := clock w + timedelta_seconds (backoff_delay env (QueuedEmail.retry_count q + 1)) in
    if QueuedEmail.retry_count q + 1 >=? QueueSettings.max_retries (queue_config env)
    then (Ret tt,
          emit (Lpush Dlq q') (with_redis (store_push true Dlq q') (ensured w)))
    else (Ret tt,
          emit (Zadd q' score)
            (with_redis
               (fun s => mkStore (main_q s) (zadd q' score (retry_q s)) (dlq_q s))
               (ensured w))).
Proof.
  intros Hc. unfold requeue_for_retry, bind at 1.
  rewrite (_ensure_connected_run w Hc).
  unfold bind at 1, utcnow. rewrite ensured_clock.
  cbv zeta. fold (failed_attempt env q error (clock w)).
  destruct (_ >=? _).
  - unfold move_to_dlq, bind at 1.
    rewrite _ensure_connected_run by now rewrite ensured_cancel.
    unfold redis_lpush, bind, modify.
    rewrite checkpoint_run by now rewrite !ensured_cancel.
    unfold ensured at 1. rewrite ensured_connected. reflexivity.
  - unfold redis_zadd, bind, modify.
    rewrite checkpoint_run by now rewrite !ensured_cancel.
    reflexivity.
Qed.





(** [requeue_for_retry] keeps the retry set free of used-up items. *)
Lemma requeue_for_retry_below_max (q : QueuedEmail.t) (error : string) (w : World) :
  cancel_requested w = false ->
  retry_below_max env (redis w) ->
  exists w',
    requeue_for_retry env q error w = (Ret tt, w') /\
    retry_below_max env (redis w').
Proof.
  intros Hc Hinv.
  rewrite (requeue_for_retry_run q error w Hc). cbv zeta.
  destruct (Z.geb_spec (QueuedEmail.retry_count q + 1)
              (QueueSettings.max_retries (queue_config env))) as [H|H];
    eexists; (split; [reflexivity|]); unfold retry_below_max in *;
    cbn; rewrite ensured_redis; [assumption|].
  apply zadd_Forall; [cbn; lia|assumption].
Qed.


Lemma enqueue_run email priority w :
  cancel_requested w = false ->
  enqueue email priority w =
    let q := QueuedEmail.mk email (clock w) 0 None None in
    (Ret tt,
     emit (if priority then Rpush Main q else Lpush Main q)
       (with_redis (store_push (negb priority) Main q) (ensured w))).
Proof.
  intros Hc. unfold enqueue, bind at 1.
  rewrite (_ensure_connected_run w Hc).
  unfold bind at 1, utcnow. rewrite ensured_clock.
  destruct priority; unfold redis_rpush, redis_lpush, bind, modify;
    rewrite checkpoint_run by (now rewrite ensured_cancel); reflexivity.
Qed.

Lemma dequeue_run w :
  cancel_requested w = false ->
  dequeue 0 w =
    (Ret (fst (rpop (main_q (redis w)))),
     emit (Rpop Main (fst (rpop (main_q (redis w)))))
       (with_redis
          (fun s => mkStore (snd (rpop (main_q (redis w)))) (retry_q s) (dlq_q s))
          (ensured w))).
Proof.
  intros Hc. unfold dequeue, bind at 1.
  rewrite (_ensure_connected_run w Hc).
  cbn [Z.eqb]. unfold redis_rpop_main, bind.
  rewrite checkpoint_run by now rewrite ensured_cancel.
  rewrite ensured_redis. destruct (rpop (main_q (redis w))). reflexivity.
Qed.

Lemma enqueue_all_run ops : forall w,
  cancel_requested w = false ->
  exists w',
    enqueue_all ops w = (Ret tt, w') /\
    cancel_requested w' = false /\
    main_q (redis w') = rev (lane false ops) ++ main_q (redis w) ++ lane true ops /\
    retry_q (redis w') = retry_q (redis w) /\
    dlq_q (redis w') = dlq_q (redis w).
Proof.
  induction ops as [|[[t email] priority] ops IH]; intros w Hc.
  - exists w. cbn. rewrite app_nil_r. auto.
  - cbn [enqueue_all]. unfold bind at 1, modify.
    unfold bind at 1. rewrite enqueue_run by exact Hc. cbv beta iota zeta.
    match goal with |- context [enqueue_all ops ?w1] =>
      destruct (IH w1) as [w' [Hrun [Hc' [Hm [Hr Hd]]]]]
    end.
    { cbn. rewrite ensured_cancel. exact Hc. }
    exists w'. split; [exact Hrun|]. split; [exact Hc'|].
    rewrite Hm, Hr, Hd. clear Hrun Hm Hr Hd.
    cbn [redis with_redis emit]. rewrite ensured_redis.
    cbn [redis with_clock clock].
    unfold lane. cbn [filter snd fst].
    destruct priority;
      cbn [Bool.eqb negb store_push main_q retry_q dlq_q map rev fst snd];
      unfold lpush, rpush; repeat split.
    + rewrite <- !app_assoc. reflexivity.
    + rewrite <- !app_assoc. reflexivity.
Qed.

Lemma snoc_cases {A} (l : list A) : l = [] \/ exists l' x, l = l' ++ [x].
Proof.
  destruct l as [|x l] using rev_ind; [now left|].
  right. eauto.
Qed.

Lemma dequeue_all_run n : forall w,
  cancel_requested w = false ->
  (List.length (main_q (redis w)) <= n)%nat ->
  exists w',
    dequeue_all n w = (Ret (rev (main_q (redis w))), w') /\
    cancel_requested w' = false /\
    main_q (redis w') = [].
Proof.
  induction n as [|n IH]; intros w Hc Hlen.
  - destruct (main_q (redis w)) eqn:E; [|cbn in Hlen; lia].
    exists w. cbn. auto.
  - cbn [dequeue_all]. unfold bind at 1. rewrite dequeue_run by exact Hc.
    destruct (snoc_cases (main_q (redis w))) as [E|[l [x E]]]; rewrite E in *.
    + cbn [rpop fst snd rev]. eexists. split; [reflexivity|].
      cbn. rewrite ensured_cancel. auto.
    + rewrite rpop_snoc. cbn [fst snd]. unfold bind at 1.
      match goal with |- context [dequeue_all n ?w1] =>
        destruct (IH w1) as [w' [Hrun [Hc' Hm]]]
      end.
      { cbn. rewrite ensured_cancel. exact Hc. }
      { cbn. rewrite length_app in Hlen. cbn in Hlen. lia. }
      rewrite Hrun. cbn [redis with_redis emit main_q].
      exists w'. rewrite rev_unit. auto.
Qed.

Lemma lanes_length ops :
  (List.length (lane false ops) + List.length (lane true ops) = List.length ops)%nat.
Proof.
  unfold lane. rewrite !length_map.
  induction ops as [|[[t e] []] ops IH]; cbn; lia.
Qed.

(** C3, as the code has it.  After any sequence of [enqueue] calls on an
    empty main list, [dequeue] returns every high-priority item before any
    normal one; the normal items come out first-in first-out, the
    high-priority items last-in first-out (the newest first). *)
Theorem dequeue_priority_order (ops : list (datetime * EmailMessage.t * bool))
  (w : World) :
  cancel_requested w = false ->
  main_q (redis w) = [] ->
  exists w',
    (enqueue_all ops ;; dequeue_all (List.length ops)) w
    = (Ret (rev (lane true ops) ++ lane false ops), w') /\
    main_q (redis w') = [].
Proof.
  intros Hc Hempty. unfold bind.
  destruct (enqueue_all_run ops w Hc) as [w1 [Hrun [Hc1 [Hm _]]]].
  rewrite Hrun. rewrite Hempty in Hm. cbn [app] in Hm.
  destruct (dequeue_all_run (List.length ops) w1 Hc1) as [w2 [Hrun2 [_ Hm2]]].
  { rewrite Hm, length_app, length_rev. apply Nat.eq_le_incl, lanes_length. }
  exists w2. rewrite Hrun2, Hm, rev_app_distr, rev_involutive. auto.
Qed.

Lemma in_range_spec lo hi p : in_range lo hi p = true <-> lo <= snd p <= hi.
Proof. unfold in_range. rewrite andb_true_iff, !Z.leb_le. tauto. Qed.

Lemma zrangebyscore_In lo hi z m :
  In m (zrangebyscore lo hi z) <-> exists s, In (m, s) z /\ lo <= s <= hi.
Proof.
  unfold zrangebyscore. rewrite in_map_iff. split.
  - intros [[m' s] [E H]]. cbn in E. subst m'.
    apply filter_In in H. destruct H as [H R]. apply in_range_spec in R.
    exists s. auto.
  - intros [s [H R]]. exists (m, s). split; [reflexivity|].
    apply filter_In. split; [exact H|]. apply in_range_spec. exact R.
Qed.

Lemma zremrangebyscore_In lo hi z p :
  In p (zremrangebyscore lo hi z) <-> In p z /\ ~ lo <= snd p <= hi.
Proof.
  unfold zremrangebyscore. rewrite filter_In, negb_true_iff.
  rewrite <- in_range_spec. destruct (in_range lo hi p); intuition congruence.
Qed.

Lemma zremrangebyscore_none lo hi z :
  zrangebyscore lo hi z = [] -> zremrangebyscore lo hi z = z.
Proof.
  unfold zrangebyscore, zremrangebyscore.
  induction z as [|p z IH]; cbn [filter]; [reflexivity|].
  destruct (in_range lo hi p); cbn [negb map]; [discriminate|].
  intros H. now rewrite IH.
Qed.

Lemma members_score_unique (z : zset) m s s' :
  NoDup (map fst z) -> In (m, s) z -> In (m, s') z -> s = s'.
Proof.
  induction z as [|[m0 s0] z IH]; cbn [map fst In]; intros Hz H H'; [contradiction|].
  inversion Hz as [|? ? Hm Hz']; subst.
  destruct H as [H|H], H' as [H'|H'].
  - congruence.
  - inversion H; subst. exfalso. apply Hm.
    apply in_map_iff. exists (m, s'). auto.
  - inversion H'; subst. exfalso. apply Hm.
    apply in_map_iff. exists (m, s). auto.
  - eauto.
Qed.

Lemma get_retry_emails_run w :
  cancel_requested w = false ->
  exists w',
    get_retry_emails w
    = (Ret (zrangebyscore 0 (clock w) (retry_q (redis w))), w') /\
    cancel_requested w' = false /\
    clock w' = clock w /\
    main_q (redis w') = main_q (redis w) /\
    retry_q (redis w') = zremrangebyscore 0 (clock w) (retry_q (redis w)) /\
    dlq_q (redis w') = dlq_q (redis w) /\
    outbox w' = outbox w /\
    exists t, trace w' = trace w ++ t /\ Forall backstage t.
Proof.
  intros Hc. unfold get_retry_emails, bind at 1.
  rewrite (_ensure_connected_run w Hc).
  unfold bind at 1, utcnow. rewrite ensured_clock.
  unfold bind at 1, redis_zrangebyscore, bind at 1.
  rewrite checkpoint_run by now rewrite ensured_cancel.
  cbv beta iota. rewrite ensured_redis.
  destruct (ensured_trace w) as [t0 [Ht0 Hq0]].
  destruct (zrangebyscore 0 (clock w) (retry_q (redis w))) as [|m due] eqn:E.
  - eexists. split; [reflexivity|]. cbn.
    rewrite ensured_cancel, ensured_clock, ensured_redis.
    rewrite (zremrangebyscore_none _ _ _ E). repeat split; try assumption.
    + unfold ensured. now destruct (connected w).
    + eexists. rewrite Ht0, <- app_assoc. split; [reflexivity|].
      apply Forall_app. split; [exact Hq0|]. repeat constructor.
  - unfold redis_zremrangebyscore. mrun.
    eexists. split; [reflexivity|]. cbn.
    rewrite ensured_cancel, ensured_clock, ensured_redis.
    repeat split; try assumption.
    + unfold ensured. now destruct (connected w).
    + eexists. rewrite Ht0, <- !app_assoc. split; [reflexivity|].
      apply Forall_app. split; [exact Hq0|]. repeat constructor.
Qed.

(** One call of [get_retry_emails] is two steps of a caller. *)
Lemma get_retry_emails_steps w (b : Caller) :
  cancel_requested w = false ->
  exists w',
    get_retry_emails w = (Ret (zrangebyscore 0 (clock w) (retry_q (redis w))), w') /\
    interleave [false; false] (Reading (clock w)) b (retry_q (redis w))
    = (Returned (zrangebyscore 0 (clock w) (retry_q (redis w))), b,
       retry_q (redis w')).
Proof.
  intros Hc. destruct (get_retry_emails_run w Hc) as [w' [Hrun [_ [_ [_ [Hr _]]]]]].
  exists w'. split; [exact Hrun|]. rewrite Hr.
  cbn [interleave caller_step].
  destruct (zrangebyscore 0 (clock w) (retry_q (redis w))) eqn:E.
  - cbn. now rewrite (zremrangebyscore_none _ _ _ E).
  - reflexivity.
Qed.

(** Two steps of a caller that is about to read are one whole call. *)
Lemma caller_two_steps now z :
  let (c1, z1) := caller_step (Reading now) z in
  caller_step c1 z1
  = (Returned (zrangebyscore 0 now z), zremrangebyscore 0 now z).
Proof.
  cbn [caller_step].
  destruct (zrangebyscore 0 now z) eqn:E; cbn [caller_step].
  - now rewrite (zremrangebyscore_none _ _ _ E).
  - reflexivity.
Qed.

(** Callers that do not overlap never return the same entry. *)
Lemma sequential_callers_hand_back_once now_a now_b z :
  NoDup (map fst z) ->
  hands_back_at_most_once [false; false; true; true] now_a now_b z.
Proof.
  intros Hz ra rb z' H m Ha Hb.
  cbn [interleave] in H.
  pose proof (caller_two_steps now_a z) as Ea.
  destruct (caller_step (Reading now_a) z) as [a1 z1].
  destruct (caller_step a1 z1) as [a2 z2]. injection Ea as -> ->.
  pose proof (caller_two_steps now_b (zremrangebyscore 0 now_a z)) as Eb.
  destruct (caller_step (Reading now_b) _) as [b1 z3].
  destruct (caller_step b1 z3) as [b2 z4]. injection Eb as -> ->.
  injection H as <- <- _.
  apply zrangebyscore_In in Ha. destruct Ha as [s [Hs Hrange]].
  apply zrangebyscore_In in Hb. destruct Hb as [s' [Hs' _]].
  apply zremrangebyscore_In in Hs'. destruct Hs' as [Hin Hout]. cbn in Hout.
  rewrite (members_score_unique _ _ _ _ Hz Hin Hs) in Hout. tauto.
Qed.

(** C4, as the code has it.  A call of [get_retry_emails] that no other
    command of the store comes in between returns exactly the members of the
    retry set with a score in [0, now], each once, and removes exactly those;
    a call that follows it, at whatever time, returns none of them again: two
    callers whose calls do not overlap are never handed the same entry. *)
Theorem get_retry_emails_sequential (w : World) :
  cancel_requested w = false ->
  NoDup (map fst (retry_q (redis w))) ->
  exists due w',
    get_retry_emails w = (Ret due, w') /\
    NoDup due /\
    (forall m s, In (m, s) (retry_q (redis w)) ->
       (0 <= s <= clock w -> In m due /\ ~ In m (map fst (retry_q (redis w')))) /\
       (~ 0 <= s <= clock w -> ~ In m due /\ In (m, s) (retry_q (redis w')))) /\
    (forall m, In m due -> exists s, In (m, s) (retry_q (redis w)) /\ 0 <= s <= clock w) /\
    (forall t, exists again w'',
       get_retry_emails (with_clock t w') = (Ret again, w'') /\
       forall m, In m due -> ~ In m again) /\
    (forall now_b,
       hands_back_at_most_once [false; false; true; true] (clock w) now_b
         (retry_q (redis w))).
Proof.
  intros Hc Hz.
  destruct (get_retry_emails_run w Hc) as [w' [Hrun [Hc' [_ [_ [Hr _]]]]]].
  exists (zrangebyscore 0 (clock w) (retry_q (redis w))), w'.
  split; [exact Hrun|].
  assert (Hgone : forall m, In m (zrangebyscore 0 (clock w) (retry_q (redis w))) ->
                            ~ In m (map fst (retry_q (redis w')))).
  { intros m Hm Hin. apply zrangebyscore_In in Hm. destruct Hm as [s [Hs Hrange]].
    apply in_map_iff in Hin. destruct Hin as [[m' s'] [E Hin]]. cbn in E. subst m'.
    rewrite Hr in Hin. apply zremrangebyscore_In in Hin. destruct Hin as [Hin Hout].
    cbn in Hout. rewrite (members_score_unique _ _ _ _ Hz Hin Hs) in Hout. tauto. }
  split; [|split; [|split; [|split]]].
  5:{ intros now_b. apply sequential_callers_hand_back_once. exact Hz. }
  - unfold zrangebyscore. apply filter_members_NoDup. exact Hz.
  - intros m s Hin. split; intros Hs.
    + assert (Hm : In m (zrangebyscore 0 (clock w) (retry_q (redis w))))
        by (apply zrangebyscore_In; eauto).
      auto.
    + split.
      * intros Hm. apply zrangebyscore_In in Hm. destruct Hm as [s' [Hin' Hs']].
        rewrite (members_score_unique _ _ _ _ Hz Hin Hin') in Hs. tauto.
      * rewrite Hr. apply zremrangebyscore_In. auto.
  - intros m Hm. apply zrangebyscore_In in Hm. exact Hm.
  - intros t.
    destruct (get_retry_emails_run (with_clock t w') Hc') as [w'' [Hrun' _]].
    eexists. exists w''. split; [exact Hrun'|].
    intros m Hm Hagain. apply (Hgone m Hm).
    apply zrangebyscore_In in Hagain. destruct Hagain as [s [Hin _]].
    apply in_map_iff. exists (m, s). auto.
Qed.

(** ** sender.py: RateLimiter *)

Lemma quiet_refl w : quiet w w.
Proof.
  constructor; try reflexivity. exists []. rewrite app_nil_r. auto.
Qed.

Lemma quiet_trans w1 w2 w3 : quiet w1 w2 -> quiet w2 w3 -> quiet w1 w3.
Proof.
  intros [A1 A2 A3 A4 A5 [t1 [A6 A7]]] [B1 B2 B3 B4 B5 [t2 [B6 B7]]].
  constructor; try congruence.
  exists (t1 ++ t2). rewrite B6, A6, app_assoc. split; [reflexivity|].
  apply Forall_app. auto.
Qed.

Lemma quiet_sleep d t w : quiet w (emit (Sleep d) (with_clock t w)).
Proof.
  constructor; try reflexivity. exists [Sleep d].
  split; [reflexivity|repeat constructor].
Qed.

Lemma quiet_with_rate_limiter rl w : quiet w (with_rate_limiter rl w).
Proof.
  constructor; try reflexivity. exists []. cbn. rewrite app_nil_r. auto.
Qed.

Lemma quiet_with_cancel_requested b w : quiet w (with_cancel_requested b w).
Proof.
  constructor; try reflexivity. exists []. cbn. rewrite app_nil_r. auto.
Qed.

Lemma sleep_run d w :
  cancel_requested w = false ->
  sleep d w = (Ret tt, emit (Sleep d) (with_clock (clock w + d) w)).
Proof. intros Hc. unfold sleep. mrun. reflexivity. Qed.

Lemma sleep_cancelled d w :
  cancel_requested w = true ->
  sleep d w = (Raise CancelledError, with_cancel_requested false w).
Proof. intros Hc. unfold sleep, bind, checkpoint. rewrite Hc. reflexivity. Qed.

Lemma sleep_spec d w :
  exists r w', sleep d w = (r, w') /\ quiet w w' /\ settled w r w' /\
               (r = Ret tt -> clock w' = clock w + d /\ rate_limiter w' = rate_limiter w).
Proof.
  destruct (cancel_requested w) eqn:Hc.
  - rewrite sleep_cancelled by exact Hc. do 2 eexists. split; [reflexivity|].
    split; [apply quiet_with_cancel_requested|]. split; [cbn; auto|discriminate].
  - rewrite sleep_run by exact Hc. do 2 eexists. split; [reflexivity|].
    split; [apply quiet_sleep|]. split; [reflexivity|]. cbn. auto.
Qed.

Lemma drop_older_head bound t d : bound <= t -> drop_older bound (t :: d) = t :: d.
Proof.
  intros H. cbn. destruct (Z.ltb_spec t bound); [lia|reflexivity].
Qed.

(** Under the mocked clock two turns are enough for the hourly loop. *)
Lemma wait_hourly_enough n w :
  exists r w',
    wait_hourly (S (S n)) (clock w) w = (r, w') /\
    quiet w w' /\ settled w r w' /\
    (forall t, r = Ret t -> t = clock w').
Proof.
  cbn [wait_hourly]. unfold bind at 1, self_limiter.
  destruct (rate_limiter w) as [rl|] eqn:Hrl.
  2:{ do 2 eexists. split; [reflexivity|]. split; [apply quiet_refl|].
      split; [reflexivity|discriminate]. }
  destruct (_ >=? _) eqn:Hfull.
  2:{ do 2 eexists. split; [reflexivity|]. split; [apply quiet_refl|].
      split; [reflexivity|]. unfold ret. intros t [= <-]. reflexivity. }
  destruct (RateLimiter.hourly_timestamps rl) as [|oldest rest] eqn:Hts.
  { do 2 eexists. split; [reflexivity|]. split; [apply quiet_refl|].
    split; [reflexivity|discriminate]. }
  cbv zeta.
  destruct (Z.gtb_spec (oldest + timedelta_hours 1 - clock w) 0) as [Hwait|Hwait].
  2:{ do 2 eexists. split; [reflexivity|]. split; [apply quiet_refl|].
      split; [reflexivity|]. unfold ret. intros t [= <-]. reflexivity. }
  unfold bind at 1.
  destruct (cancel_requested w) eqn:Hc.
  { rewrite sleep_cancelled by exact Hc. do 2 eexists. split; [reflexivity|].
    split; [apply quiet_with_cancel_requested|]. split; [cbn; auto|discriminate]. }
  rewrite sleep_run by exact Hc. unfold bind at 1, utcnow.
  unfold bind at 1, update_limiter, modify.
  cbn [clock emit with_clock rate_limiter with_rate_limiter].
  rewrite Hrl. cbn [option_map].
  replace (clock w + (oldest + timedelta_hours 1 - clock w))
    with (oldest + timedelta_hours 1) by lia.
  unfold bind at 1.
  set (w2 := with_rate_limiter _ _).
  assert (Hh : RateLimiter.hourly_timestamps
                 (_cleanup_timestamps (oldest + timedelta_hours 1) rl) = oldest :: rest).
  { unfold _cleanup_timestamps. cbn [RateLimiter.hourly_timestamps].
    rewrite Hts. apply drop_older_head. lia. }
  assert (Hq : quiet w w2).
  { subst w2. eapply quiet_trans; [apply quiet_sleep|apply quiet_with_rate_limiter]. }
  change (rate_limiter w2)
    with (Some (_cleanup_timestamps (oldest + timedelta_hours 1) rl)).
  cbv beta iota. rewrite Hh.
  change (RateLimiter.max_per_hour (_cleanup_timestamps (oldest + timedelta_hours 1) rl))
    with (RateLimiter.max_per_hour rl).
  rewrite Hfull.
  destruct (Z.gtb_spec (oldest + timedelta_hours 1 - (oldest + timedelta_hours 1)) 0);
    [lia|].
  do 2 eexists. split; [reflexivity|]. split; [exact Hq|].
  split; [reflexivity|]. unfold ret. intros t [= <-]. reflexivity.
Qed.

(** The same for the per-minute loop. *)
Lemma wait_minute_enough n m w :
  exists r w',
    wait_minute (S (S n)) m (clock w) w = (r, w') /\
    quiet w w' /\ settled w r w' /\
    (forall t, r = Ret t -> t = clock w').
Proof.
  cbn [wait_minute]. unfold bind at 1, self_limiter.
  destruct (rate_limiter w) as [rl|] eqn:Hrl.
  2:{ do 2 eexists. split; [reflexivity|]. split; [apply quiet_refl|].
      split; [reflexivity|discriminate]. }
  destruct (_ >=? _) eqn:Hfull.
  2:{ do 2 eexists. split; [reflexivity|]. split; [apply quiet_refl|].
      split; [reflexivity|]. unfold ret. intros t [= <-]. reflexivity. }
  destruct (RateLimiter.minute_timestamps rl) as [|oldest rest] eqn:Hts.
  { do 2 eexists. split; [reflexivity|]. split; [apply quiet_refl|].
    split; [reflexivity|discriminate]. }
  cbv zeta.
  destruct (Z.gtb_spec (oldest + timedelta_minutes 1 - clock w) 0) as [Hwait|Hwait].
  2:{ do 2 eexists. split; [reflexivity|]. split; [apply quiet_refl|].
      split; [reflexivity|]. unfold ret. intros t [= <-]. reflexivity. }
  unfold bind at 1.
  destruct (cancel_requested w) eqn:Hc.
  { rewrite sleep_cancelled by exact Hc. do 2 eexists. split; [reflexivity|].
    split; [apply quiet_with_cancel_requested|]. split; [cbn; auto|discriminate]. }
  rewrite sleep_run by exact Hc. unfold bind at 1, utcnow.
  unfold bind at 1, update_limiter, modify.
  cbn [clock emit with_clock rate_limiter with_rate_limiter].
  rewrite Hrl. cbn [option_map].
  replace (clock w + (oldest + timedelta_minutes 1 - clock w))
    with (oldest + timedelta_minutes 1) by lia.
  unfold bind at 1.
  set (w2 := with_rate_limiter _ _).
  assert (Hh : RateLimiter.minute_timestamps
                 (_cleanup_timestamps (oldest + timedelta_minutes 1) rl) = oldest :: rest).
  { unfold _cleanup_timestamps. cbn [RateLimiter.minute_timestamps].
    rewrite Hts. destruct (truthy_int _); [|reflexivity].
    apply drop_older_head. lia. }
  assert (Hq : quiet w w2).
  { subst w2. eapply quiet_trans; [apply quiet_sleep|apply quiet_with_rate_limiter]. }
  change (rate_limiter w2)
    with (Some (_cleanup_timestamps (oldest + timedelta_minutes 1) rl)).
  cbv beta iota. rewrite Hh, Hfull.
  destruct (Z.gtb_spec (oldest + timedelta_minutes 1 - (oldest + timedelta_minutes 1)) 0);
    [lia|].
  do 2 eexists. split; [reflexivity|]. split; [exact Hq|].
  split; [reflexivity|]. unfold ret. intros t [= <-]. reflexivity.
Qed.

(** More fuel does not change the result of a loop that has come to its
    end. *)
Lemma wait_hourly_more_fuel fuel : forall now w r w',
  wait_hourly fuel now w = (r, w') -> r <> OutOfFuel ->
  wait_hourly (S fuel) now w = (r, w').
Proof.
  induction fuel as [|fuel IH]; intros now w r w' H Hr.
  - cbn [wait_hourly] in *. unfold bind in *.
    destruct (self_limiter w) as [[rl|e|] w1]; try exact H.
    destruct (_ >=? _); [|exact H].
    unfold out_of_fuel in H. injection H as <- <-. contradiction.
  - remember (S fuel) as fuel1 eqn:Hf.
    cbn [wait_hourly]. rewrite Hf in H. cbn [wait_hourly] in H.
    unfold bind at 1 in H. unfold bind at 1.
    destruct (self_limiter w) as [[rl|e|] w1]; try exact H.
    destruct (_ >=? _); [|exact H].
    destruct (RateLimiter.hourly_timestamps rl) as [|oldest rest]; [exact H|].
    cbv zeta in *. destruct (_ >? 0); [|exact H].
    unfold bind at 1 in H. unfold bind at 1.
    destruct (sleep _ w1) as [[[]|e|] w2]; try exact H.
    unfold bind at 1, utcnow in H. unfold bind at 1, utcnow.
    unfold bind at 1, update_limiter, modify in H.
    unfold bind at 1, update_limiter, modify.
    apply IH; assumption.
Qed.

Lemma wait_minute_more_fuel fuel m : forall now w r w',
  wait_minute fuel m now w = (r, w') -> r <> OutOfFuel ->
  wait_minute (S fuel) m now w = (r, w').
Proof.
  induction fuel as [|fuel IH]; intros now w r w' H Hr.
  - cbn [wait_minute] in *. unfold bind in *.
    destruct (self_limiter w) as [[rl|e|] w1]; try exact H.
    destruct (_ >=? _); [|exact H].
    unfold out_of_fuel in H. injection H as <- <-. contradiction.
  - remember (S fuel) as fuel1 eqn:Hf.
    cbn [wait_minute]. rewrite Hf in H. cbn [wait_minute] in H.
    unfold bind at 1 in H. unfold bind at 1.
    destruct (self_limiter w) as [[rl|e|] w1]; try exact H.
    destruct (_ >=? _); [|exact H].
    destruct (RateLimiter.minute_timestamps rl) as [|oldest rest]; [exact H|].
    cbv zeta in *. destruct (_ >? 0); [|exact H].
    unfold bind at 1 in H. unfold bind at 1.
    destruct (sleep _ w1) as [[[]|e|] w2]; try exact H.
    unfold bind at 1, utcnow in H. unfold bind at 1, utcnow.
    unfold bind at 1, update_limiter, modify in H.
    unfold bind at 1, update_limiter, modify.
    apply IH; assumption.
Qed.

Lemma settled_after {A B} (w w1 w2 : World) (a : A) (r : outcome B) :
  settled w (Ret a) w1 -> settled w1 r w2 -> settled w r w2.
Proof.
  unfold settled. intros H. destruct r as [b|[msg|]|]; rewrite ?H; auto.
Qed.

(** [acquire] comes to an end, and touches neither the store nor the
    transport. *)
Lemma acquire_spec w :
  exists r w', acquire w = (r, w') /\ quiet w w' /\ settled w r w'.
Proof.
  unfold acquire, acquire_with.
  unfold bind at 1, utcnow. unfold bind at 1, update_limiter at 1, modify.
  set (w1 := with_rate_limiter _ w).
  assert (Hq1 : quiet w w1) by apply quiet_with_rate_limiter.
  assert (Hs1 : settled w (Ret tt) w1) by reflexivity.
  unfold bind at 1.
  destruct (wait_hourly_enough 0 w1) as [r1 [w2 [Hrun [Hq2 [Hs2 Ht]]]]].
  change (clock w1) with (clock w) in Hrun. rewrite Hrun. clear Hrun.
  destruct r1 as [t|e|].
  2:{ do 2 eexists. split; [reflexivity|].
      split; [eapply quiet_trans; eassumption|].
      eapply settled_after; eassumption. }
  2:{ destruct Hs2. }
  rewrite (Ht t eq_refl). clear Ht.
  unfold bind at 1, self_limiter.
  destruct (rate_limiter w2) as [rl|] eqn:Hrl.
  2:{ do 2 eexists. split; [reflexivity|].
      split; [eapply quiet_trans; eassumption|].
      eapply settled_after; [exact Hs1|]. exact Hs2. }
  assert (Hend : forall t' w3, quiet w2 w3 -> settled w2 (Ret t') w3 ->
            exists r w',
              update_limiter (record_send t') w3 = (r, w') /\
              quiet w w' /\ settled w r w').
  { intros t' w3 Hq3 Hs3. unfold update_limiter, modify.
    do 2 eexists. split; [reflexivity|]. split.
    - eapply quiet_trans; [eassumption|]. eapply quiet_trans; [eassumption|].
      eapply quiet_trans; [eassumption|]. apply quiet_with_rate_limiter.
    - eapply settled_after; [exact Hs1|]. eapply settled_after; [exact Hs2|].
      eapply settled_after; [exact Hs3|]. reflexivity. }
  unfold bind at 1.
  destruct (RateLimiter.max_per_minute rl) as [m|].
  2:{ unfold ret at 1. apply Hend; [apply quiet_refl|reflexivity]. }
  destruct (truthy_int (Some m)).
  2:{ unfold ret at 1. apply Hend; [apply quiet_refl|reflexivity]. }
  destruct (wait_minute_enough 0 m w2) as [r2 [w3 [Hrun [Hq3 [Hs3 Ht]]]]].
  rewrite Hrun. clear Hrun.
  destruct r2 as [t'|e|].
  - apply Hend; assumption.
  - do 2 eexists. split; [reflexivity|].
    split; [eapply quiet_trans; [eassumption|eapply quiet_trans; eassumption]|].
    eapply settled_after; [exact Hs1|]. eapply settled_after; eassumption.
  - destruct Hs3.
Qed.

Lemma wait_hourly_any_fuel n w :
  wait_hourly (S (S n)) (clock w) w = wait_hourly 2 (clock w) w.
Proof.
  induction n as [|n IH]; [reflexivity|].
  destruct (wait_hourly_enough 0 w) as [r [w' [H [_ [Hs _]]]]].
  rewrite H. apply wait_hourly_more_fuel.
  - rewrite IH. exact H.
  - intros ->. exact Hs.
Qed.

Lemma wait_minute_any_fuel n m w :
  wait_minute (S (S n)) m (clock w) w = wait_minute 2 m (clock w) w.
Proof.
  induction n as [|n IH]; [reflexivity|].
  destruct (wait_minute_enough 0 m w) as [r [w' [H [_ [Hs _]]]]].
  rewrite H. apply wait_minute_more_fuel.
  - rewrite IH. exact H.
  - intros ->. exact Hs.
Qed.

(** [acquire] is [acquire_with] any fuel from two on. *)
Lemma acquire_fuel_enough n w : acquire_with (S (S n)) w = acquire w.
Proof.
  unfold acquire, acquire_with, bind, utcnow, update_limiter, modify.
  set (w1 := with_rate_limiter _ w).
  change (clock w) with (clock w1).
  rewrite wait_hourly_any_fuel.
  destruct (wait_hourly_enough 0 w1) as [r [w2 [H [_ [_ Ht]]]]]. rewrite H.
  destruct r as [t|e|]; try reflexivity.
  rewrite (Ht t eq_refl).
  destruct (self_limiter w2) as [[rl|e|] w3] eqn:E; try reflexivity.
  assert (Hw3 : w3 = w2).
  { unfold self_limiter in E. destruct (rate_limiter w2); now injection E. }
  subst w3.
  destruct (RateLimiter.max_per_minute rl) as [m|]; [|reflexivity].
  destruct (truthy_int (Some m)); [|reflexivity].
  rewrite wait_minute_any_fuel. reflexivity.
Qed.

(** ** sender.py: EmailSender *)

(** Rendering reads and writes nothing of the world, and raises ordinary
    exceptions only. *)
Lemma render_stage_pure email :
  exists r,
    (forall w, render_stage env email w = (r, w)) /\
    match r with
    | Ret email' => EmailMessage.smtp_account email' = EmailMessage.smtp_account email
    | Raise (Exception _) => True
    | _ => False
    end.
Proof.
  unfold render_stage, _render_template.
  destruct (truthy_str _); [|eexists; split; [reflexivity|reflexivity]].
  destruct (jinja_env env) as [render|]; [|eexists; split; [reflexivity|exact I]].
  destruct (EmailMessage.template_name email) as [name|];
    [|eexists; split; [reflexivity|reflexivity]].
  destruct (String.eqb name EmptyString); [eexists; split; [reflexivity|reflexivity]|].
  destruct (render email); [|eexists; split; [reflexivity|exact I]].
  destruct (endswith name ".html"); eexists; (split; [reflexivity|reflexivity]).
Qed.

Lemma _send_smtp_run email acct w :
  cancel_requested w = false ->
  _send_smtp env email acct w =
    match transport env (smtp_calls w) email acct with
    | Accepted message_id elapsed =>
        (Ret message_id,
         with_outbox ((email, message_id) :: outbox w)
           (with_clock (clock w + elapsed) (with_smtp_calls (S (smtp_calls w)) w)))
    | Rejected error elapsed =>
        (Raise (Exception error),
         with_clock (clock w + elapsed) (with_smtp_calls (S (smtp_calls w)) w))
    end.
Proof. intros Hc. unfold _send_smtp. mrun. reflexivity. Qed.

Lemma _send_smtp_cancelled email acct w :
  cancel_requested w = true ->
  _send_smtp env email acct w = (Raise CancelledError, with_cancel_requested false w).
Proof. intros Hc. unfold _send_smtp, bind, checkpoint. rewrite Hc. reflexivity. Qed.

(** The [try] statement of [send_email] when no cancellation is pending. *)
Lemma send_email_try_run email w :
  cancel_requested w = false ->
  exists result w',
    send_email_try env email w = (Ret result, w') /\
    redis w' = redis w /\ running w' = running w /\ trace w' = trace w /\
    cancel_requested w' = false /\
    ((EmailResult.status result = SENT /\
      EmailResult.error result = None /\
      exists message_id email' acct elapsed,
        EmailResult.message_id result = Some message_id /\
        transport env (smtp_calls w) email' acct = Accepted message_id elapsed /\
        outbox w' = (email', message_id) :: outbox w)
     \/
     (EmailResult.status result = FAILED /\
      EmailResult.message_id result = None /\
      outbox w' = outbox w /\
      exists msg,
        EmailResult.error result = Some msg /\
        (get_smtp_account (config env) (EmailMessage.smtp_account email) = inr msg
         \/ render_stage env email w = (Raise (Exception msg), w)
         \/ exists email' acct elapsed,
              transport env (smtp_calls w) email' acct = Rejected msg elapsed))) /\
    (forall msg,
       get_smtp_account (config env) (EmailMessage.smtp_account email) = inr msg ->
       EmailResult.status result = FAILED /\ EmailResult.error result = Some msg).
Proof.
  intros Hc. unfold send_email_try, try_except.
  destruct (get_smtp_account _ _) as [acct|msg] eqn:Hacct.
  2:{ do 2 eexists. split; [reflexivity|].
      do 3 (split; [reflexivity|]). split; [exact Hc|]. split.
      - right. do 3 (split; [reflexivity|]).
        exists msg. split; [reflexivity|]. left. reflexivity.
      - intros msg' [= <-]. split; reflexivity. }
  unfold bind at 1.
  destruct (render_stage_pure email) as [r [Hr Hkind]]. rewrite Hr.
  destruct r as [email'|[msg|]|]; try contradiction.
  2:{ do 2 eexists. split; [reflexivity|].
      do 3 (split; [reflexivity|]). split; [exact Hc|]. split.
      - right. do 3 (split; [reflexivity|]).
        eexists. split; [reflexivity|]. right. left. reflexivity.
      - discriminate. }
  unfold bind at 1. rewrite _send_smtp_run by exact Hc.
  destruct (transport env (smtp_calls w) email' acct) as [id dt|msg dt] eqn:Ht.
  - unfold bind, utcnow, ret. do 2 eexists. split; [reflexivity|].
    do 3 (split; [reflexivity|]). split; [exact Hc|]. split; [|discriminate].
    left. do 2 (split; [reflexivity|]). do 4 eexists.
    split; [reflexivity|]. split; [exact Ht|reflexivity].
  - do 2 eexists. split; [reflexivity|].
    do 3 (split; [reflexivity|]). split; [exact Hc|]. split; [|discriminate].
    right. do 3 (split; [reflexivity|]).
    exists msg. split; [reflexivity|]. right. right. eauto.
Qed.


Lemma rate_limit_gate_spec w :
  exists r w', rate_limit_gate w = (r, w') /\ quiet w w' /\ settled w r w'.
Proof.
  unfold rate_limit_gate. destruct (rate_limiter w).
  - apply acquire_spec.
  - do 2 eexists. split; [reflexivity|]. split; [apply quiet_refl|reflexivity].
Qed.

(** C10. Once the permit of the rate limiter is acquired, and unless the task
    is being cancelled, [send_email] returns a result: SENT with the message
    id the transport gave and no error, or FAILED with no message id and, in
    [error], the text of the exception that was raised by the account
    lookup, by the rendering of the template or by the transport.  An unknown
    account name is such a failure. *)
Theorem send_email_total (email : EmailMessage.t) (w w1 : World) :
  cancel_requested w = false ->
  rate_limit_gate w = (Ret tt, w1) ->
  exists result w',
    send_email env email w = (Ret result, w') /\
    ((EmailResult.status result = SENT /\
      EmailResult.error result = None /\
      exists message_id email' acct elapsed,
        EmailResult.message_id result = Some message_id /\
        transport env (smtp_calls w1) email' acct = Accepted message_id elapsed /\
        outbox w' = (email', message_id) :: outbox w1)
     \/
     (EmailResult.status result = FAILED /\
      EmailResult.message_id result = None /\
      outbox w' = outbox w1 /\
      exists msg,
        EmailResult.error result = Some msg /\
        (get_smtp_account (config env) (EmailMessage.smtp_account email) = inr msg
         \/ render_stage env email w1 = (Raise (Exception msg), w1)
         \/ exists email' acct elapsed,
              transport env (smtp_calls w1) email' acct = Rejected msg elapsed))) /\
    (forall msg,
       get_smtp_account (config env) (EmailMessage.smtp_account email) = inr msg ->
       EmailResult.status result = FAILED /\ EmailResult.error result = Some msg).
Proof.
  intros Hc Hgate.
  destruct (rate_limit_gate_spec w) as [r [w1' [Hrun [_ Hs]]]].
  rewrite Hgate in Hrun. injection Hrun as <- <-.
  cbn in Hs. rewrite Hc in Hs.
  destruct (send_email_try_run email w1 Hs)
    as [result [w' [Htry [_ [_ [_ [_ [Hcases Hunknown]]]]]]]].
  exists result, w'. unfold send_email, bind. rewrite Hgate.
  split; [exact Htry|]. split; assumption.
Qed.

Lemma send_email_run email w :
  cancel_requested w = false ->
  exists r w',
    send_email env email w = (r, w') /\
    redis w' = redis w /\ running w' = running w /\
    cancel_requested w' = false /\
    (exists t, trace w' = trace w ++ t /\ Forall is_sleep t) /\
    match r with
    | Ret result =>
        if EmailResult.is_success result
        then exists email' message_id, outbox w' = (email', message_id) :: outbox w
        else outbox w' = outbox w
    | Raise (Exception _) => outbox w' = outbox w
    | _ => False
    end.
Proof.
  intros Hc. unfold send_email, bind.
  destruct (rate_limit_gate_spec w) as [r [w1 [Hrun [Hq Hs]]]]. rewrite Hrun.
  destruct Hq as [Q1 Q2 Q3 Q4 Q5 Q6].
  destruct r as [[]|[msg|]|]; cbn in Hs.
  - rewrite Hc in Hs.
    destruct (send_email_try_run email w1 Hs)
      as [result [w' [Htry [F1 [F2 [F3 [F4 [Hcases _]]]]]]]].
    rewrite Htry. do 2 eexists. split; [reflexivity|].
    split; [congruence|]. split; [congruence|]. split; [exact F4|].
    split; [rewrite F3; exact Q6|].
    unfold EmailResult.is_success.
    destruct Hcases as [[-> [_ [id [e [a [dt [_ [_ Ho]]]]]]]]|[-> [_ [Ho _]]]].
    + rewrite Ho, Q2. eauto.
    + congruence.
  - do 2 eexists. split; [reflexivity|].
    split; [exact Q1|]. split; [exact Q4|]. split; [congruence|].
    split; [exact Q6|exact Q2].
  - destruct Hs as [Hs _]. congruence.
  - destruct Hs.
Qed.


(** ** worker.py *)

Lemma requeue_for_retry_frame q error w :
  cancel_requested w = false ->
  exists w',
    requeue_for_retry env q error w = (Ret tt, w') /\
    cancel_requested w' = false /\
    running w' = running w /\
    main_q (redis w') = main_q (redis w) /\
    outbox w' = outbox w /\
    (exists t, trace w' = trace w ++ t /\ Forall backstage t) /\
    (exists q',
       QueuedEmail.email q' = QueuedEmail.email q /\
       QueuedEmail.retry_count q' = QueuedEmail.retry_count q + 1 /\
       (dlq_q (redis w') = q' :: dlq_q (redis w)
        \/ In q' (map fst (retry_q (redis w'))))).
Proof.
  intros Hc. rewrite (requeue_for_retry_run q error w Hc). cbv zeta.
  destruct (ensured_trace w) as [t0 [Ht0 Hq0]].
  destruct (_ >=? _); eexists; (split; [reflexivity|]); cbn;
    rewrite ensured_cancel, ensured_running, ensured_redis, ensured_outbox, Ht0,
      <- app_assoc;
    (split; [exact Hc|]); do 3 (split; [reflexivity|]);
    (split; [eexists; split; [reflexivity|];
             apply Forall_app; split; [exact Hq0|repeat constructor]|]);
    exists (failed_attempt env q error (clock w));
    do 2 (split; [reflexivity|]).
  - left. reflexivity.
  - right. apply in_map_iff. eexists. split; [|apply zadd_In; left; reflexivity].
    reflexivity.
Qed.


Lemma sent_calls_app t1 t2 : sent_calls (t1 ++ t2) = sent_calls t1 ++ sent_calls t2.
Proof.
  induction t1 as [|ev t1 IH]; [reflexivity|].
  destruct ev; cbn; rewrite ?IH; reflexivity.
Qed.

Lemma popped_app t1 t2 : popped (t1 ++ t2) = popped t1 ++ popped t2.
Proof.
  induction t1 as [|ev t1 IH]; [reflexivity|].
  destruct ev as [| | |[] []| | | | | | |]; cbn; rewrite ?IH; reflexivity.
Qed.

Lemma backstage_quiet t : Forall backstage t -> sent_calls t = [] /\ popped t = [].
Proof.
  induction 1 as [|ev t Hev _ [IH1 IH2]]; [auto|].
  destruct ev; cbn in *; try contradiction; auto.
Qed.

Lemma is_sleep_backstage t : Forall is_sleep t -> Forall backstage t.
Proof.
  apply Forall_impl. intros [] H; cbn in *; auto.
Qed.

(** A delivery that is not cancelled: the sender is called once, the main
    list is not read, and the outcome is on record. *)
Lemma _send_email_run q w :
  cancel_requested w = false ->
  exists w',
    _send_email env q w = (Ret tt, w') /\
    cancel_requested w' = false /\
    running w' = running w /\
    main_q (redis w') = main_q (redis w) /\
    (exists t, trace w' = trace w ++ CallSendEmail (QueuedEmail.email q) :: t
               /\ Forall backstage t) /\
    outcome_recorded q w w'.
Proof.
  intros Hc. unfold _send_email, try_except.
  unfold bind at 1, modify. unfold bind at 1.
  set (w0 := emit _ w).
  destruct (send_email_run (QueuedEmail.email q) w0 Hc)
    as [r [w1 [Hrun [F1 [F2 [F3 [[t1 [F4 F5]] F6]]]]]]].
  rewrite Hrun.
  assert (Hreq : forall error,
    exists w',
      requeue_for_retry env q error w1 = (Ret tt, w') /\
      cancel_requested w' = false /\
      running w' = running w /\
      main_q (redis w') = main_q (redis w) /\
      (exists t, trace w' = trace w ++ CallSendEmail (QueuedEmail.email q) :: t
                 /\ Forall backstage t) /\
      outcome_recorded q w w').
  { intros error.
    destruct (requeue_for_retry_frame q error w1 F3)
      as [w' [Hreq [G1 [G2 [G3 [G4 [[t2 [G5 G6]] [q' [G7 [G8 G9]]]]]]]]]].
    exists w'. split; [exact Hreq|]. split; [exact G1|].
    split; [rewrite G2, F2; reflexivity|].
    split; [rewrite G3, F1; reflexivity|].
    split.
    - exists (t1 ++ t2). rewrite G5, F4. subst w0. cbn [trace emit].
      rewrite <- !app_assoc. split; [reflexivity|].
      apply Forall_app. split; [apply is_sleep_backstage; exact F5|exact G6].
    - right. exists q'. split; [exact G7|]. split; [exact G8|].
      rewrite F1 in G9. exact G9. }
  destruct r as [result|[msg|]|]; try contradiction.
  - destruct (EmailResult.is_success result).
    + exists w1. split; [reflexivity|]. split; [exact F3|].
      split; [rewrite F2; reflexivity|]. split; [rewrite F1; reflexivity|].
      split.
      * exists t1. rewrite F4. subst w0. cbn [trace emit].
        rewrite <- app_assoc. split; [reflexivity|].
        apply is_sleep_backstage. exact F5.
      * left. exact F6.
    + destruct (Hreq (str_or (EmailResult.error result) "Unknown error"))
        as [w' [Hrun' [G1 [G2 [G3 [G4 G5]]]]]].
      exists w'. rewrite Hrun'. split; [reflexivity|].
      repeat (split; [assumption|]). exact G5.
  - destruct (Hreq msg) as [w' [Hrun' [G1 [G2 [G3 [G4 G5]]]]]].
    exists w'. rewrite Hrun'. split; [reflexivity|].
    repeat (split; [assumption|]). exact G5.
Qed.


Lemma backstage_not_pop t : Forall backstage t -> Forall (fun ev => ~ is_pop ev) t.
Proof.
  apply Forall_impl. intros [] H; cbn in *; auto.
Qed.

Lemma retry_each_run retry_emails : forall w,
  cancel_requested w = false ->
  exists w' t,
    retry_each env retry_emails w = (Ret tt, w') /\
    cancel_requested w' = false /\
    running w' = running w /\
    main_q (redis w') = main_q (redis w) /\
    trace w' = trace w ++ t /\
    sent_calls t = map QueuedEmail.email retry_emails /\
    Forall (fun ev => ~ is_pop ev) t.
Proof.
  induction retry_emails as [|q rest IH]; intros w Hc.
  - exists w, []. cbn. rewrite app_nil_r. repeat split; auto.
  - cbn [retry_each]. unfold bind.
    destruct (_send_email_run q w Hc)
      as [w1 [Hrun [F1 [F2 [F3 [[t1 [F4 F5]] _]]]]]].
    rewrite Hrun.
    destruct (IH w1 F1) as [w2 [t2 [Hrun2 [G1 [G2 [G3 [G4 [G5 G6]]]]]]]].
    rewrite Hrun2.
    exists w2, ((CallSendEmail (QueuedEmail.email q) :: t1) ++ t2).
    split; [reflexivity|]. split; [exact G1|].
    split; [congruence|]. split; [congruence|].
    split; [rewrite G4, F4, <- app_assoc; reflexivity|].
    split.
    + rewrite sent_calls_app. cbn [sent_calls map].
      destruct (backstage_quiet t1 F5) as [-> _]. rewrite G5. reflexivity.
    + apply Forall_app. split; [|exact G6].
      constructor; [intros []|]. apply backstage_not_pop. exact F5.
Qed.

Lemma process_batch_run n : forall w,
  cancel_requested w = false ->
  exists w' t,
    process_batch env n w = (Ret tt, w') /\
    cancel_requested w' = false /\
    running w' = running w /\
    trace w' = trace w ++ t /\
    popped t = firstn n (rev (main_q (redis w))) /\
    sent_calls t = map QueuedEmail.email (popped t) /\
    main_q (redis w') = rev (skipn n (rev (main_q (redis w)))).
Proof.
  induction n as [|n IH]; intros w Hc.
  - exists w, []. cbn. rewrite app_nil_r, rev_involutive. repeat split; auto.
  - cbn [process_batch]. unfold bind at 1. rewrite dequeue_run by exact Hc.
    destruct (ensured_trace w) as [t0 [Ht0 Hq0]].
    destruct (backstage_quiet t0 Hq0) as [Hs0 Hp0].
    destruct (snoc_cases (main_q (redis w))) as [E|[l [x E]]]; rewrite E.
    + cbn [rpop fst snd]. eexists. exists (t0 ++ [Rpop Main None]).
      split; [reflexivity|]. cbn.
      rewrite ensured_cancel, ensured_running, Ht0, <- app_assoc.
      rewrite popped_app, sent_calls_app, Hs0, Hp0.
      repeat split; auto.
    + rewrite rpop_snoc. cbn [fst snd].
      set (w1 := emit _ _).
      assert (Hc1 : cancel_requested w1 = false)
        by (subst w1; cbn; now rewrite ensured_cancel).
      destruct (_send_email_run x w1 Hc1)
        as [w2 [Hrun [F1 [F2 [F3 [[t1 [F4 F5]] _]]]]]].
      unfold bind. rewrite Hrun.
      destruct (IH w2 F1) as [w3 [t2 [Hrun2 [G1 [G2 [G3 [G4 [G5 G6]]]]]]]].
      rewrite Hrun2.
      destruct (backstage_quiet t1 F5) as [Hs1 Hp1].
      exists w3,
        (t0 ++ Rpop Main (Some x) :: CallSendEmail (QueuedEmail.email x) :: t1 ++ t2).
      split; [reflexivity|]. split; [exact G1|].
      split; [rewrite G2, F2; subst w1; cbn; apply ensured_running|].
      assert (Hm : main_q (redis w2) = l) by (rewrite F3; reflexivity).
      rewrite Hm in G4, G6.
      split; [|split; [|split]].
      * rewrite G3, F4. subst w1. cbn [trace emit with_redis].
        rewrite Ht0, <- !app_assoc. reflexivity.
      * rewrite popped_app, Hp0. cbn [popped app].
        rewrite popped_app, Hp1, G4, rev_unit. reflexivity.
      * rewrite sent_calls_app, popped_app, Hs0, Hp0. cbn [sent_calls popped app map].
        rewrite sent_calls_app, popped_app, Hs1, Hp1, G5. reflexivity.
      * rewrite G6, rev_unit. reflexivity.
Qed.


(** *** Nothing but [start] and [stop] writes [_running] *)

Create HintDb keeps.

Lemma kr_ret {A} (a : A) : keeps_running (ret a).
Proof. intros w r w' [= <- <-]. reflexivity. Qed.

Lemma kr_raise {A} (e : exn) : keeps_running (@raise A e).
Proof. intros w r w' [= <- <-]. reflexivity. Qed.

Lemma kr_out_of_fuel {A} : keeps_running (@out_of_fuel A).
Proof. intros w r w' [= <- <-]. reflexivity. Qed.

Lemma kr_utcnow : keeps_running utcnow.
Proof. intros w r w' [= <- <-]. reflexivity. Qed.

Lemma kr_modify (f : World -> World) :
  (forall w, running (f w) = running w) -> keeps_running (modify f).
Proof. intros Hf w r w' [= <- <-]. apply Hf. Qed.

Lemma kr_checkpoint : keeps_running checkpoint.
Proof.
  intros w r w'. unfold checkpoint.
  destruct (cancel_requested w); intros [= <- <-]; reflexivity.
Qed.

Lemma kr_bind {A B} (m : M A) (k : A -> M B) :
  keeps_running m -> (forall a, keeps_running (k a)) -> keeps_running (bind m k).
Proof.
  intros Hm Hk w r w'. unfold bind.
  destruct (m w) as [[a|e|] w1] eqn:E; intros H.
  - rewrite (Hk a _ _ _ H). exact (Hm _ _ _ E).
  - injection H as <- <-. exact (Hm _ _ _ E).
  - injection H as <- <-. exact (Hm _ _ _ E).
Qed.

Lemma kr_try_except {A} (m : M A) (h : string -> M A) :
  keeps_running m -> (forall msg, keeps_running (h msg)) ->
  keeps_running (try_except m h).
Proof.
  intros Hm Hh w r w'. unfold try_except.
  destruct (m w) as [[a|[msg|]|] w1] eqn:E; intros H;
    try (injection H as <- <-; exact (Hm _ _ _ E)).
  rewrite (Hh msg _ _ _ H). exact (Hm _ _ _ E).
Qed.

#[local] Hint Resolve kr_ret kr_raise kr_out_of_fuel kr_utcnow kr_checkpoint
  kr_bind kr_try_except : keeps.
#[local] Hint Extern 1 (keeps_running (modify _)) =>
  apply kr_modify; intros; reflexivity : keeps.
#[local] Hint Extern 2 (keeps_running (if ?b then _ else _)) => destruct b : keeps.
#[local] Hint Extern 2 (keeps_running (match ?x with _ => _ end)) => destruct x : keeps.

Lemma kr_sleep d : keeps_running (sleep d).
Proof. unfold sleep. auto with keeps. Qed.
#[local] Hint Resolve kr_sleep : keeps.

Lemma kr_connect : keeps_running connect.
Proof.
  intros w r w'. unfold connect. destruct (connected w).
  - intros [= <- <-]. reflexivity.
  - assert (H : keeps_running
                  (modify (with_connected true) ;; checkpoint ;; modify (emit Ping)))
      by auto with keeps.
    apply H.
Qed.
#[local] Hint Resolve kr_connect : keeps.

Lemma kr__ensure_connected : keeps_running _ensure_connected.
Proof.
  intros w r w'. unfold _ensure_connected. destruct (connected w).
  - intros [= <- <-]. reflexivity.
  - apply kr_connect.
Qed.
#[local] Hint Resolve kr__ensure_connected : keeps.

Lemma kr_redis_lpush seg q : keeps_running (redis_lpush seg q).
Proof. unfold redis_lpush. auto with keeps. Qed.

Lemma kr_redis_zadd q score : keeps_running (redis_zadd q score).
Proof. unfold redis_zadd. auto with keeps. Qed.

Lemma kr_redis_zremrangebyscore lo hi : keeps_running (redis_zremrangebyscore lo hi).
Proof. unfold redis_zremrangebyscore. auto with keeps. Qed.

Lemma kr_redis_zrangebyscore lo hi : keeps_running (redis_zrangebyscore lo hi).
Proof.
  unfold redis_zrangebyscore. apply kr_bind; [auto with keeps|].
  intros _ w r w' [= <- <-]. reflexivity.
Qed.

Lemma kr_redis_rpop_main : keeps_running redis_rpop_main.
Proof.
  unfold redis_rpop_main. apply kr_bind; [auto with keeps|].
  intros _ w r w'. destruct (rpop _). intros [= <- <-]. reflexivity.
Qed.

Lemma kr_redis_brpop_main timeout : keeps_running (redis_brpop_main timeout).
Proof.
  unfold redis_brpop_main. apply kr_bind; [auto with keeps|].
  intros _ w r w'. destruct (rpop _) as [[q|] rest]; intros [= <- <-]; reflexivity.
Qed.
#[local] Hint Resolve kr_redis_lpush kr_redis_zadd kr_redis_zremrangebyscore
  kr_redis_zrangebyscore kr_redis_rpop_main kr_redis_brpop_main : keeps.

Lemma kr_dequeue timeout : keeps_running (dequeue timeout).
Proof. unfold dequeue. auto with keeps. Qed.

Lemma kr_move_to_dlq q : keeps_running (move_to_dlq q).
Proof. unfold move_to_dlq. auto with keeps. Qed.
#[local] Hint Resolve kr_dequeue kr_move_to_dlq : keeps.

Lemma kr_requeue_for_retry q error : keeps_running (requeue_for_retry env q error).
Proof. unfold requeue_for_retry. auto with keeps. Qed.

Lemma kr_get_retry_emails : keeps_running get_retry_emails.
Proof. unfold get_retry_emails. auto 7 with keeps. Qed.
#[local] Hint Resolve kr_requeue_for_retry kr_get_retry_emails : keeps.

Lemma kr_self_limiter : keeps_running self_limiter.
Proof.
  intros w r w'. unfold self_limiter.
  destruct (rate_limiter w); intros [= <- <-]; reflexivity.
Qed.

Lemma kr_update_limiter f : keeps_running (update_limiter f).
Proof. unfold update_limiter. auto with keeps. Qed.
#[local] Hint Resolve kr_self_limiter kr_update_limiter : keeps.

Lemma kr_wait_hourly fuel : forall now, keeps_running (wait_hourly fuel now).
Proof.
  induction fuel as [|fuel IH]; intros now; cbn [wait_hourly];
    auto 8 with keeps.
Qed.

Lemma kr_wait_minute fuel m : forall now, keeps_running (wait_minute fuel m now).
Proof.
  induction fuel as [|fuel IH]; intros now; cbn [wait_minute];
    auto 8 with keeps.
Qed.
#[local] Hint Resolve kr_wait_hourly kr_wait_minute : keeps.

Lemma kr_acquire : keeps_running acquire.
Proof. unfold acquire, acquire_with. auto 8 with keeps. Qed.
#[local] Hint Resolve kr_acquire : keeps.

Lemma kr_rate_limit_gate : keeps_running rate_limit_gate.
Proof.
  intros w r w'. unfold rate_limit_gate. destruct (rate_limiter w).
  - apply kr_acquire.
  - intros [= <- <-]. reflexivity.
Qed.

Lemma kr_render_stage email : keeps_running (render_stage env email).
Proof.
  intros w r w'. destruct (render_stage_pure email) as [r0 [Hr _]].
  rewrite Hr. intros [= <- <-]. reflexivity.
Qed.

Lemma kr__send_smtp email acct : keeps_running (_send_smtp env email acct).
Proof.
  unfold _send_smtp. apply kr_bind; [auto with keeps|].
  intros _ w r w'. destruct (transport _ _ _ _); intros [= <- <-]; reflexivity.
Qed.
#[local] Hint Resolve kr_rate_limit_gate kr_render_stage kr__send_smtp : keeps.

Lemma kr_send_email email : keeps_running (send_email env email).
Proof. unfold send_email, send_email_try. auto 8 with keeps. Qed.
#[local] Hint Resolve kr_send_email : keeps.

Lemma kr__send_email q : keeps_running (_send_email env q).
Proof. unfold _send_email. auto 8 with keeps. Qed.
#[local] Hint Resolve kr__send_email : keeps.

Lemma kr_process_batch n : keeps_running (process_batch env n).
Proof. induction n as [|n IH]; cbn [process_batch]; auto 8 with keeps. Qed.

Lemma kr_retry_each l : keeps_running (retry_each env l).
Proof. induction l as [|q l IH]; cbn [retry_each]; auto with keeps. Qed.
#[local] Hint Resolve kr_process_batch kr_retry_each : keeps.

Lemma kr_poll_cycle : keeps_running (poll_cycle env).
Proof.
  unfold poll_cycle, _process_retry_queue, _process_main_queue. auto with keeps.
Qed.

Lemma kr_loop_turn body : keeps_running body -> keeps_running (loop_turn env body).
Proof.
  intros Hb w r w'. unfold loop_turn.
  assert (H1 : keeps_running (body ;; sleep (poll_interval env))) by auto with keeps.
  assert (H2 : keeps_running (sleep (poll_interval env) ;; ret true)) by auto with keeps.
  destruct ((body ;; sleep (poll_interval env)) w) as [[[]|[msg|]|] w1] eqn:E; intros H;
    try (injection H as <- <-; exact (H1 _ _ _ E)).
  rewrite (H2 _ _ _ H). exact (H1 _ _ _ E).
Qed.
#[local] Hint Resolve kr_poll_cycle kr_loop_turn : keeps.

Lemma kr__process_loop fuel : keeps_running (_process_loop env fuel).
Proof.
  induction fuel as [|fuel IH]; intros w r w'; cbn [_process_loop];
    destruct (running w) eqn:E; try (intros [= <- <-]; exact E).
  intros H. rewrite <- E.
  assert (H1 : keeps_running
                 (continue <- loop_turn env (poll_cycle env) ;;
                  if continue then _process_loop env fuel else ret tt))
    by auto with keeps.
  exact (H1 _ _ _ H).
Qed.
#[local] Hint Resolve kr__process_loop : keeps.

(** The task of the worker, wherever it is suspended, leaves [_running] to
    [start] and [stop]. *)
Lemma kr_suspended_loop rest fuel :
  keeps_running rest -> keeps_running (suspended_loop env rest fuel).
Proof. intros H. unfold suspended_loop. auto with keeps. Qed.

Lemma kr_disconnect : keeps_running disconnect.
Proof.
  intros w r w'. unfold disconnect.
  destruct (connected w); intros [= <- <-]; reflexivity.
Qed.

Lemma kr_cancel_and_await task :
  keeps_running task -> keeps_running (cancel_and_await task).
Proof.
  intros Ht w r w'. unfold cancel_and_await.
  destruct (task _) as [[[]|[msg|]|] w1] eqn:E; intros [= <- <-];
    exact (Ht _ _ _ E).
Qed.

(** C7. [stop] on a worker that is not running returns at once and leaves
    the world as it is: no command goes to the store, the task is not
    cancelled, nothing is written.  After any call of [stop] the worker is
    not running, so a second call is such a no-op. *)
Theorem stop_idempotent (task : option (M unit)) (w : World) :
  (running w = false -> stop task w = (Ret tt, w)) /\
  ((forall t, task = Some t -> keeps_running t) ->
   forall r w',
     stop task w = (r, w') ->
     running w' = false /\ forall task', stop task' w' = (Ret tt, w')).
Proof.
  assert (Hnoop : forall task0 w0, running w0 = false -> stop task0 w0 = (Ret tt, w0)).
  { intros task0 w0 H. unfold stop. rewrite H. reflexivity. }
  split; [apply Hnoop|].
  intros Htask r w' Hstop.
  assert (Hoff : running w' = false).
  { unfold stop in Hstop. destruct (running w) eqn:Hrun; cbn [negb] in Hstop.
    - unfold bind at 1, modify in Hstop.
      assert (Hk : keeps_running
                     (match task with
                      | Some t => cancel_and_await t
                      | None => ret tt
                      end ;; disconnect)).
      { apply kr_bind; [|intros; apply kr_disconnect].
        destruct task as [t|]; [|apply kr_ret].
        apply kr_cancel_and_await, Htask. reflexivity. }
      exact (Hk _ _ _ Hstop).
    - injection Hstop as <- <-. exact Hrun. }
  split; [exact Hoff|]. intros task'. apply Hnoop. exact Hoff.
Qed.


(** *** The worker only moves items forward *)

Lemma worker_step_refl w : worker_step env w w.
Proof.
  repeat split; auto; try (exists []; rewrite ?app_nil_r; reflexivity).
Qed.

Lemma worker_step_same w w' :
  redis w' = redis w -> outbox w' = outbox w -> smtp_calls w' = smtp_calls w ->
  worker_step env w w'.
Proof.
  intros Hr Ho Hk. unfold worker_step. rewrite Hr, Ho, Hk.
  apply worker_step_refl.
Qed.

Lemma worker_step_trans w1 w2 w3 :
  worker_step env w1 w2 -> worker_step env w2 w3 -> worker_step env w1 w3.
Proof.
  intros [[d1 A1] [[m1 A2] [[o1 A3] [A4 [A5 A6]]]]]
         [[d2 B1] [[m2 B2] [[o2 B3] [B4 [B5 B6]]]]].
  repeat split; auto.
  - exists (d2 ++ d1). rewrite B1, A1, app_assoc. reflexivity.
  - exists (m2 ++ m1). rewrite A2, B2, app_assoc. reflexivity.
  - exists (o2 ++ o1). rewrite B3, A3, app_assoc. reflexivity.
  - lia.
Qed.

Create HintDb steps.

Lemma rs_ret {A} (a : A) : respects env (ret a).
Proof. intros w r w' [= <- <-]. apply worker_step_refl. Qed.

Lemma rs_raise {A} (e : exn) : respects env (@raise A e).
Proof. intros w r w' [= <- <-]. apply worker_step_refl. Qed.

Lemma rs_out_of_fuel {A} : respects env (@out_of_fuel A).
Proof. intros w r w' [= <- <-]. apply worker_step_refl. Qed.

Lemma rs_utcnow : respects env utcnow.
Proof. intros w r w' [= <- <-]. apply worker_step_refl. Qed.

Lemma rs_modify (f : World -> World) :
  (forall w, redis (f w) = redis w) ->
  (forall w, outbox (f w) = outbox w) ->
  (forall w, smtp_calls (f w) = smtp_calls w) ->
  respects env (modify f).
Proof. intros H1 H2 H3 w r w' [= <- <-]. apply worker_step_same; auto. Qed.

Lemma rs_checkpoint : respects env checkpoint.
Proof.
  intros w r w'. unfold checkpoint.
  destruct (cancel_requested w); intros [= <- <-];
    apply worker_step_same; reflexivity.
Qed.

Lemma rs_bind {A B} (m : M A) (k : A -> M B) :
  respects env m -> (forall a, respects env (k a)) -> respects env (bind m k).
Proof.
  intros Hm Hk w r w'. unfold bind.
  destruct (m w) as [[a|e|] w1] eqn:E; intros H.
  - eapply worker_step_trans; [exact (Hm _ _ _ E)|exact (Hk a _ _ _ H)].
  - injection H as <- <-. exact (Hm _ _ _ E).
  - injection H as <- <-. exact (Hm _ _ _ E).
Qed.

Lemma rs_try_except {A} (m : M A) (h : string -> M A) :
  respects env m -> (forall msg, respects env (h msg)) ->
  respects env (try_except m h).
Proof.
  intros Hm Hh w r w'. unfold try_except.
  destruct (m w) as [[a|[msg|]|] w1] eqn:E; intros H;
    try (injection H as <- <-; exact (Hm _ _ _ E)).
  eapply worker_step_trans; [exact (Hm _ _ _ E)|exact (Hh msg _ _ _ H)].
Qed.

#[local] Hint Resolve rs_ret rs_raise rs_out_of_fuel rs_utcnow rs_checkpoint
  rs_bind rs_try_except : steps.
#[local] Hint Extern 1 (respects _ (modify _)) =>
  apply rs_modify; intros; reflexivity : steps.
#[local] Hint Extern 2 (respects _ (if ?b then _ else _)) => destruct b : steps.
#[local] Hint Extern 2 (respects _ (match ?x with _ => _ end)) => destruct x : steps.

Lemma rs_sleep d : respects env (sleep d).
Proof. unfold sleep. auto with steps. Qed.
#[local] Hint Resolve rs_sleep : steps.

Lemma rs_connect : respects env connect.
Proof.
  intros w r w'. unfold connect. destruct (connected w).
  - intros [= <- <-]. apply worker_step_refl.
  - assert (H : respects env
                  (modify (with_connected true) ;; checkpoint ;; modify (emit Ping)))
      by auto with steps.
    apply H.
Qed.
#[local] Hint Resolve rs_connect : steps.

Lemma rs__ensure_connected : respects env _ensure_connected.
Proof.
  intros w r w'. unfold _ensure_connected. destruct (connected w).
  - intros [= <- <-]. apply worker_step_refl.
  - apply rs_connect.
Qed.
#[local] Hint Resolve rs__ensure_connected : steps.

(** What RPOP leaves is the list without its right end. *)
Lemma rpop_prefix {A} (l : list A) : exists t, l = snd (rpop l) ++ t.
Proof.
  destruct (snoc_cases l) as [->|[l' [x ->]]].
  - exists []. reflexivity.
  - rewrite rpop_snoc. exists [x]. reflexivity.
Qed.

Lemma rs_redis_lpush_dlq q : respects env (redis_lpush Dlq q).
Proof.
  unfold redis_lpush. apply rs_bind; [auto with steps|].
  intros _ w r w' [= <- <-]. unfold worker_step. cbn.
  repeat split; auto.
  - exists [q]. reflexivity.
  - exists []. rewrite app_nil_r. reflexivity.
  - exists []. reflexivity.
Qed.

Lemma rs_redis_zadd q score :
  QueuedEmail.retry_count q < QueueSettings.max_retries (queue_config env) ->
  respects env (redis_zadd q score).
Proof.
  intros Hq. unfold redis_zadd. apply rs_bind; [auto with steps|].
  intros _ w r w' [= <- <-]. unfold worker_step, retry_below_max. cbn.
  repeat split; auto.
  - exists []. reflexivity.
  - exists []. rewrite app_nil_r. reflexivity.
  - exists []. reflexivity.
  - intros H. apply zadd_Forall; assumption.
  - apply zadd_NoDup.
Qed.

Lemma rs_redis_zremrangebyscore lo hi : respects env (redis_zremrangebyscore lo hi).
Proof.
  unfold redis_zremrangebyscore. apply rs_bind; [auto with steps|].
  intros _ w r w' [= <- <-]. unfold worker_step, retry_below_max. cbn.
  repeat split; auto.
  - exists []. reflexivity.
  - exists []. rewrite app_nil_r. reflexivity.
  - exists []. reflexivity.
  - intros H. unfold zremrangebyscore. apply Forall_forall. intros p Hp.
    apply filter_In in Hp. rewrite Forall_forall in H. apply H, Hp.
  - apply filter_members_NoDup.
Qed.

Lemma rs_redis_zrangebyscore lo hi : respects env (redis_zrangebyscore lo hi).
Proof.
  unfold redis_zrangebyscore. apply rs_bind; [auto with steps|].
  intros _ w r w' [= <- <-]. apply worker_step_same; reflexivity.
Qed.

Lemma rs_redis_rpop_main : respects env redis_rpop_main.
Proof.
  unfold redis_rpop_main. apply rs_bind; [auto with steps|].
  intros _ w r w'. destruct (rpop_prefix (main_q (redis w))) as [t Ht].
  destruct (rpop (main_q (redis w))) as [x rest]. cbn in Ht.
  intros [= <- <-]. unfold worker_step. cbn.
  repeat split; auto.
  - exists []. reflexivity.
  - exists t. exact Ht.
  - exists []. reflexivity.
Qed.

Lemma rs_redis_brpop_main timeout : respects env (redis_brpop_main timeout).
Proof.
  unfold redis_brpop_main. apply rs_bind; [auto with steps|].
  intros _ w r w'. destruct (rpop_prefix (main_q (redis w))) as [t Ht].
  destruct (rpop (main_q (redis w))) as [[x|] rest]; cbn in Ht; intros [= <- <-].
  - unfold worker_step. cbn. repeat split; auto.
    + exists []. reflexivity.
    + exists t. exact Ht.
    + exists []. reflexivity.
  - apply worker_step_same; reflexivity.
Qed.
#[local] Hint Resolve rs_redis_lpush_dlq rs_redis_zremrangebyscore
  rs_redis_zrangebyscore rs_redis_rpop_main rs_redis_brpop_main : steps.

Lemma rs_dequeue timeout : respects env (dequeue timeout).
Proof. unfold dequeue. auto with steps. Qed.

Lemma rs_move_to_dlq q : respects env (move_to_dlq q).
Proof. unfold move_to_dlq. auto with steps. Qed.
#[local] Hint Resolve rs_dequeue rs_move_to_dlq : steps.

Lemma rs_requeue_for_retry q error : respects env (requeue_for_retry env q error).
Proof.
  unfold requeue_for_retry. apply rs_bind; [auto with steps|]. intros _.
  apply rs_bind; [auto with steps|]. intros now. cbv zeta.
  destruct (Z.geb_spec (QueuedEmail.retry_count q + 1)
              (QueueSettings.max_retries (queue_config env))) as [H|H].
  - auto with steps.
  - apply rs_redis_zadd. exact H.
Qed.

Lemma rs_get_retry_emails : respects env get_retry_emails.
Proof. unfold get_retry_emails. auto 7 with steps. Qed.
#[local] Hint Resolve rs_requeue_for_retry rs_get_retry_emails : steps.

Lemma rs_self_limiter : respects env self_limiter.
Proof.
  intros w r w'. unfold self_limiter.
  destruct (rate_limiter w); intros [= <- <-]; apply worker_step_refl.
Qed.

Lemma rs_update_limiter f : respects env (update_limiter f).
Proof. unfold update_limiter. auto with steps. Qed.
#[local] Hint Resolve rs_self_limiter rs_update_limiter : steps.

Lemma rs_wait_hourly fuel : forall now, respects env (wait_hourly fuel now).
Proof.
  induction fuel as [|fuel IH]; intros now; cbn [wait_hourly];
    auto 8 with steps.
Qed.

Lemma rs_wait_minute fuel m : forall now, respects env (wait_minute fuel m now).
Proof.
  induction fuel as [|fuel IH]; intros now; cbn [wait_minute];
    auto 8 with steps.
Qed.
#[local] Hint Resolve rs_wait_hourly rs_wait_minute : steps.

Lemma rs_acquire : respects env acquire.
Proof. unfold acquire, acquire_with. auto 8 with steps. Qed.
#[local] Hint Resolve rs_acquire : steps.

Lemma rs_rate_limit_gate : respects env rate_limit_gate.
Proof.
  intros w r w'. unfold rate_limit_gate. destruct (rate_limiter w).
  - apply rs_acquire.
  - intros [= <- <-]. apply worker_step_refl.
Qed.

Lemma rs_render_stage email : respects env (render_stage env email).
Proof.
  intros w r w'. destruct (render_stage_pure email) as [r0 [Hr _]].
  rewrite Hr. intros [= <- <-]. apply worker_step_refl.
Qed.

Lemma rs__send_smtp email acct : respects env (_send_smtp env email acct).
Proof.
  unfold _send_smtp. apply rs_bind; [auto with steps|].
  intros _ w r w'. destruct (transport _ _ _ _); intros [= <- <-];
    unfold worker_step; cbn; repeat split; auto;
    try (exists []; rewrite ?app_nil_r; reflexivity).
  exists [(email, message_id)]. reflexivity.
Qed.
#[local] Hint Resolve rs_rate_limit_gate rs_render_stage rs__send_smtp : steps.

Lemma rs_send_email email : respects env (send_email env email).
Proof. unfold send_email, send_email_try. auto 8 with steps. Qed.
#[local] Hint Resolve rs_send_email : steps.

Lemma rs__send_email q : respects env (_send_email env q).
Proof. unfold _send_email. auto 8 with steps. Qed.
#[local] Hint Resolve rs__send_email : steps.

Lemma rs_process_batch n : respects env (process_batch env n).
Proof. induction n as [|n IH]; cbn [process_batch]; auto 8 with steps. Qed.

Lemma rs_retry_each l : respects env (retry_each env l).
Proof. induction l as [|q l IH]; cbn [retry_each]; auto with steps. Qed.
#[local] Hint Resolve rs_process_batch rs_retry_each : steps.

Lemma rs_poll_cycle : respects env (poll_cycle env).
Proof.
  unfold poll_cycle, _process_retry_queue, _process_main_queue. auto with steps.
Qed.

Lemma rs_loop_turn body : respects env body -> respects env (loop_turn env body).
Proof.
  intros Hb w r w'. unfold loop_turn.
  assert (H1 : respects env (body ;; sleep (poll_interval env))) by auto with steps.
  assert (H2 : respects env (sleep (poll_interval env) ;; ret true)) by auto with steps.
  destruct ((body ;; sleep (poll_interval env)) w) as [[[]|[msg|]|] w1] eqn:E; intros H;
    try (injection H as <- <-; exact (H1 _ _ _ E)).
  eapply worker_step_trans; [exact (H1 _ _ _ E)|exact (H2 _ _ _ H)].
Qed.
#[local] Hint Resolve rs_poll_cycle rs_loop_turn : steps.

Lemma rs__process_loop fuel : respects env (_process_loop env fuel).
Proof.
  induction fuel as [|fuel IH]; intros w r w'; cbn [_process_loop];
    destruct (running w); try (intros [= <- <-]; apply worker_step_refl).
  assert (H1 : respects env
                 (continue <- loop_turn env (poll_cycle env) ;;
                  if continue then _process_loop env fuel else ret tt))
    by auto with steps.
  apply H1.
Qed.
#[local] Hint Resolve rs__process_loop : steps.

Lemma rs_suspended_loop rest fuel :
  respects env rest -> respects env (suspended_loop env rest fuel).
Proof. intros H. unfold suspended_loop. auto with steps. Qed.

Lemma rs_stop task :
  (forall t, task = Some t -> respects env t) -> respects env (stop task).
Proof.
  intros Ht w r w'. unfold stop. destruct (running w); cbn [negb];
    [|intros [= <- <-]; apply worker_step_refl].
  assert (Hc : forall t, respects env t -> respects env (cancel_and_await t)).
  { intros t H v r0 v'. unfold cancel_and_await.
    destruct (t _) as [[[]|[msg|]|] v1] eqn:E; intros [= <- <-];
      (eapply worker_step_trans;
       [eapply worker_step_trans; [|exact (H _ _ _ E)]|]);
      apply worker_step_same; reflexivity. }
  assert (Hd : respects env disconnect).
  { intros v r0 v'. unfold disconnect.
    destruct (connected v); intros [= <- <-]; apply worker_step_same; reflexivity. }
  assert (H1 : respects env
                 (modify (with_running false) ;;
                  match task with
                  | Some t => cancel_and_await t
                  | None => ret tt
                  end ;; disconnect)).
  { apply rs_bind; [auto with steps|]. intros _.
    apply rs_bind; [|intros; exact Hd].
    destruct task as [t|]; [apply Hc, Ht; reflexivity|apply rs_ret]. }
  apply H1.
Qed.

(** X1. However long the worker loop runs and whether or not it is cancelled,
    it only moves items forward: the dead-letter list only gains items at its
    head, the main list only loses items at its right end (the worker never
    puts an item back on it), and no accepted message leaves the outbox. *)
Theorem worker_loop_moves_forward (fuel : nat) (w : World) :
  let w' := snd (_process_loop env fuel w) in
  (exists l, dlq_q (redis w') = l ++ dlq_q (redis w)) /\
  (exists l, main_q (redis w) = main_q (redis w') ++ l) /\
  (exists o, outbox w' = o ++ outbox w).
Proof.
  intros w'.
  destruct (rs__process_loop fuel w (fst (_process_loop env fuel w)) w')
    as [H1 [H2 [H3 _]]]; [apply surjective_pairing|].
  auto.
Qed.

(** X2. If no entry of the retry set has used up its attempts, this is still
    so after a poll cycle and after any run of the worker loop, cancelled or
    not: the worker schedules nothing whose attempt count has reached
    [max_retries]. *)
Theorem worker_keeps_retry_set_below_max (fuel : nat) (w : World) :
  retry_below_max env (redis w) ->
  retry_below_max env (redis (snd (poll_cycle env w))) /\
  retry_below_max env (redis (snd (_process_loop env fuel w))).
Proof.
  intros Hinv. split.
  - destruct (rs_poll_cycle w (fst (poll_cycle env w)) (snd (poll_cycle env w)))
      as [_ [_ [_ [_ [H _]]]]]; [apply surjective_pairing|].
    auto.
  - destruct (rs__process_loop fuel w (fst (_process_loop env fuel w))
                (snd (_process_loop env fuel w)))
      as [_ [_ [_ [_ [H _]]]]]; [apply surjective_pairing|].
    auto.
Qed.

(** *** The rate limiter: pruning, waiting, granting *)

Lemma filter_all (f : datetime -> bool) d :
  Forall (fun t => f t = true) d -> filter f d = d.
Proof.
  induction 1 as [|t d Ht _ IH]; cbn; [reflexivity|]. now rewrite Ht, IH.
Qed.

Lemma drop_older_sorted bound d :
  StronglySorted Z.le d -> drop_older bound d = filter (fun t => bound <=? t) d.
Proof.
  induction 1 as [|t d Hd IH Ht]; cbn [drop_older filter]; [reflexivity|].
  destruct (Z.ltb_spec t bound) as [Hlt|Hge].
  - destruct (Z.leb_spec bound t); [lia|exact IH].
  - destruct (Z.leb_spec bound t); [|lia].
    rewrite filter_all; [reflexivity|].
    eapply Forall_impl; [|exact Ht]. cbn. intros u Hu. apply Z.leb_le. lia.
Qed.

Lemma drop_older_head_ge bound d t rest :
  drop_older bound d = t :: rest -> bound <= t.
Proof.
  induction d as [|u d IH]; cbn [drop_older]; [discriminate|].
  destruct (Z.ltb_spec u bound); [exact IH|].
  intros [= <- <-]. assumption.
Qed.




(** X3. On a deque that is in time order, [_cleanup_timestamps] removes
    exactly the timestamps more than an hour (a minute) old and keeps the
    others in order; the one that is exactly an hour old stays.  Without a
    per-minute limit the minute deque is not touched. *)
Theorem _cleanup_timestamps_sorted (now : datetime) (rl : RateLimiter.t) :
  StronglySorted Z.le (RateLimiter.hourly_timestamps rl) ->
  StronglySorted Z.le (RateLimiter.minute_timestamps rl) ->
  RateLimiter.hourly_timestamps (_cleanup_timestamps now rl)
  = filter (fun t => now - timedelta_hours 1 <=? t) (RateLimiter.hourly_timestamps rl) /\
  RateLimiter.minute_timestamps (_cleanup_timestamps now rl)
  = (if truthy_int (RateLimiter.max_per_minute rl)
     then filter (fun t => now - timedelta_minutes 1 <=? t)
            (RateLimiter.minute_timestamps rl)
     else RateLimiter.minute_timestamps rl) /\
  RateLimiter.max_per_hour (_cleanup_timestamps now rl) = RateLimiter.max_per_hour rl /\
  RateLimiter.max_per_minute (_cleanup_timestamps now rl)
  = RateLimiter.max_per_minute rl.
Proof.
  intros Hh Hm. unfold _cleanup_timestamps. cbn.
  rewrite (drop_older_sorted _ _ Hh).
  destruct (truthy_int _); rewrite ?(drop_older_sorted _ _ Hm); auto.
Qed.

(** How [acquire] ends when there is no per-minute limit and the pruned
    deque is not both empty and at capacity. *)
(** How [acquire] ends when there is no per-minute limit and the pruned
    deque is not both empty and at capacity. *)
Lemma acquire_hourly_post w rl :
  rate_limiter w = Some rl ->
  truthy_int (RateLimiter.max_per_minute rl) = false ->
  cancel_requested w = false ->
  let d := drop_older (clock w - timedelta_hours 1) (RateLimiter.hourly_timestamps rl) in
  (d <> [] \/ 0 < RateLimiter.max_per_hour rl) ->
  exists w',
    acquire w = (Ret tt, w') /\
    cancel_requested w' = false /\
    redis w' = redis w /\
    rate_limiter w'
    = Some (RateLimiter.mk (RateLimiter.max_per_hour rl) (RateLimiter.max_per_minute rl)
              (d ++ [clock w']) (RateLimiter.minute_timestamps rl)) /\
    ((Z.of_nat (List.length d) < RateLimiter.max_per_hour rl /\
      clock w' = clock w /\ trace w' = trace w)
     \/
     (RateLimiter.max_per_hour rl <= Z.of_nat (List.length d) /\
      exists oldest rest,
        d = oldest :: rest /\
        ((0 < oldest + timedelta_hours 1 - clock w /\
          clock w' = oldest + timedelta_hours 1 /\
          trace w' = trace w ++ [Sleep (oldest + timedelta_hours 1 - clock w)])
         \/
         (oldest = clock w - timedelta_hours 1 /\
          clock w' = clock w /\ trace w' = trace w)))).
Proof.
  intros Hrl Hmin Hc d Hd.
  unfold acquire, acquire_with.
  unfold bind at 1, utcnow. unfold bind at 1, update_limiter at 1, modify.
  rewrite Hrl. cbn [option_map].
  set (rl1 := _cleanup_timestamps (clock w) rl).
  assert (Hh1 : RateLimiter.hourly_timestamps rl1 = d).
  { reflexivity. }
  assert (Hm1 : RateLimiter.minute_timestamps rl1 = RateLimiter.minute_timestamps rl).
  { subst rl1. unfold _cleanup_timestamps. cbn. now rewrite Hmin. }
  assert (Hmax1 : RateLimiter.max_per_hour rl1 = RateLimiter.max_per_hour rl) by reflexivity.
  assert (Hmpm1 : RateLimiter.max_per_minute rl1 = RateLimiter.max_per_minute rl)
    by reflexivity.
  set (w1 := with_rate_limiter (Some rl1) w).
  (* what follows the hourly loop, from a world [v] whose limiter is [rlv] *)
  assert (Hself : forall v rlv, rate_limiter v = Some rlv -> self_limiter v = (Ret rlv, v)).
  { intros v rlv Hv. unfold self_limiter. now rewrite Hv. }
  assert (Hend : forall v rlv t,
    rate_limiter v = Some rlv ->
    RateLimiter.max_per_minute rlv = RateLimiter.max_per_minute rl ->
    (rl0 <- self_limiter ;;
     now <- match RateLimiter.max_per_minute rl0 with
            | Some m => if truthy_int (Some m) then wait_minute 2 m t else ret t
            | None => ret t
            end ;;
     update_limiter (record_send now)) v
    = (Ret tt, with_rate_limiter (Some (record_send t rlv)) v)).
  { intros v rlv t Hv Hmpm. unfold bind at 1. rewrite (Hself v rlv Hv).
    rewrite Hmpm. unfold bind, update_limiter, modify, ret.
    destruct (RateLimiter.max_per_minute rl) as [m|] eqn:E.
    - rewrite Hmin. cbv beta iota. rewrite Hv. reflexivity.
    - cbv beta iota. rewrite Hv. reflexivity. }
  assert (Hrec : forall t rlv,
    RateLimiter.hourly_timestamps rlv = d ->
    RateLimiter.minute_timestamps rlv = RateLimiter.minute_timestamps rl ->
    RateLimiter.max_per_hour rlv = RateLimiter.max_per_hour rl ->
    RateLimiter.max_per_minute rlv = RateLimiter.max_per_minute rl ->
    record_send t rlv
    = RateLimiter.mk (RateLimiter.max_per_hour rl) (RateLimiter.max_per_minute rl)
        (d ++ [t]) (RateLimiter.minute_timestamps rl)).
  { intros t rlv E1 E2 E3 E4. unfold record_send. rewrite E1, E2, E3, E4, Hmin.
    reflexivity. }
  unfold bind at 1. cbn [wait_hourly]. unfold bind at 1.
  rewrite (Hself w1 rl1 eq_refl).
  rewrite Hh1, Hmax1.
  destruct (Z.geb_spec (Z.of_nat (List.length d)) (RateLimiter.max_per_hour rl))
    as [Hfull|Hfree].
  2:{ unfold ret at 1.
      rewrite (Hend w1 rl1 (clock w) eq_refl Hmpm1).
      rewrite (Hrec (clock w) rl1 Hh1 Hm1 Hmax1 Hmpm1).
      eexists. split; [reflexivity|]. split; [exact Hc|]. split; [reflexivity|].
      split; [reflexivity|]. left. repeat split. lia. }
  destruct d as [|oldest rest] eqn:Ed.
  { exfalso. cbn in Hfull. destruct Hd as [Hd|Hd]; [congruence|lia]. }
  cbv zeta.
  destruct (Z.gtb_spec (oldest + timedelta_hours 1 - clock w) 0) as [Hwait|Hnow].
  2:{ unfold ret at 1.
      rewrite (Hend w1 rl1 (clock w) eq_refl Hmpm1).
      rewrite (Hrec (clock w) rl1 Hh1 Hm1 Hmax1 Hmpm1).
      eexists. split; [reflexivity|]. split; [exact Hc|]. split; [reflexivity|].
      split; [reflexivity|]. right. split; [lia|].
      exists oldest, rest. split; [reflexivity|]. right.
      pose proof (drop_older_head_ge _ _ _ _ Ed) as Hge.
      repeat split; lia. }
  unfold bind at 1. rewrite sleep_run by exact Hc.
  unfold bind at 1, utcnow. unfold bind at 1, update_limiter at 1, modify.
  cbn [clock emit with_clock rate_limiter with_rate_limiter option_map].
  change (clock w1) with (clock w). change (rate_limiter w1) with (Some rl1).
  cbn [option_map].
  replace (clock w + (oldest + timedelta_hours 1 - clock w))
    with (oldest + timedelta_hours 1) by lia.
  set (rl2 := _cleanup_timestamps (oldest + timedelta_hours 1) rl1).
  assert (Hh2 : RateLimiter.hourly_timestamps rl2 = oldest :: rest).
  { subst rl2. unfold _cleanup_timestamps. cbn [RateLimiter.hourly_timestamps].
    rewrite Hh1. apply drop_older_head. lia. }
  assert (Hm2 : RateLimiter.minute_timestamps rl2 = RateLimiter.minute_timestamps rl).
  { subst rl2. unfold _cleanup_timestamps. cbn [RateLimiter.minute_timestamps].
    rewrite Hmpm1, Hmin. exact Hm1. }
  set (w2 := with_rate_limiter (Some rl2) _).
  unfold bind at 1.
  rewrite (Hself w2 rl2 eq_refl).
  rewrite Hh2.
  change (RateLimiter.max_per_hour rl2) with (RateLimiter.max_per_hour rl).
  destruct (Z.geb_spec (Z.of_nat (List.length (oldest :: rest)))
              (RateLimiter.max_per_hour rl)); [|lia].
  destruct (Z.gtb_spec (oldest + timedelta_hours 1 - (oldest + timedelta_hours 1)) 0);
    [lia|].
  unfold ret at 1.
  rewrite (Hend w2 rl2 (oldest + timedelta_hours 1) eq_refl eq_refl).
  rewrite (Hrec (oldest + timedelta_hours 1) rl2 Hh2 Hm2 eq_refl eq_refl).
  eexists. split; [reflexivity|]. split; [exact Hc|]. split; [reflexivity|].
  split; [reflexivity|]. right. split; [lia|].
  exists oldest, rest. split; [reflexivity|]. left.
  repeat split. lia.
Qed.

Lemma hour_positive : 0 < timedelta_hours 1.
Proof. reflexivity. Qed.

(** X4. Without a per-minute limit and with a positive hourly limit,
    [acquire] (not cancelled) returns with the time of the grant appended to
    the pruned hourly deque, and it leaves more than [max_per_hour]
    timestamps there only when the oldest of them is exactly one hour old at
    the grant. *)
Theorem acquire_over_limit_only_at_edge (w : World) (rl : RateLimiter.t) :
  rate_limiter w = Some rl ->
  truthy_int (RateLimiter.max_per_minute rl) = false ->
  cancel_requested w = false ->
  0 < RateLimiter.max_per_hour rl ->
  exists w',
    acquire w = (Ret tt, w') /\
    hourly_window w'
    = drop_older (clock w - timedelta_hours 1) (RateLimiter.hourly_timestamps rl)
      ++ [clock w'] /\
    (Z.of_nat (List.length (hourly_window w')) <= RateLimiter.max_per_hour rl
     \/ hd_error (hourly_window w') = Some (clock w' - timedelta_hours 1)).
Proof.
  intros Hrl Hmin Hc Hmax.
  destruct (acquire_hourly_post w rl Hrl Hmin Hc (or_intror Hmax))
    as [w' [Hrun [_ [_ [Hrl' Hcases]]]]].
  exists w'. split; [exact Hrun|]. unfold hourly_window. rewrite Hrl'.
  cbn [RateLimiter.hourly_timestamps]. split; [reflexivity|].
  rewrite length_app. cbn [List.length].
  destruct Hcases as [[Hlen _]|[_ [oldest [rest [Hd [[_ [Hclock _]]|[Hold [Hclock _]]]]]]]].
  - left. lia.
  - right. rewrite Hd. cbn [app hd_error]. f_equal. lia.
  - right. rewrite Hd. cbn [app hd_error]. f_equal. lia.
Qed.


Lemma drop_older_repeat t j :
  drop_older (t - timedelta_hours 1) (repeat t j) = repeat t j.
Proof.
  destruct j as [|j]; [reflexivity|]. cbn [repeat].
  apply drop_older_head. pose proof hour_positive. lia.
Qed.

Lemma acquire_times_free (mpm : option Z) (minute : list datetime) (H : Z) (k : nat) :
  truthy_int mpm = false ->
  forall (j : nat) (w : World),
    cancel_requested w = false ->
    rate_limiter w = Some (RateLimiter.mk H mpm (repeat (clock w) j) minute) ->
    Z.of_nat (j + k) <= H ->
    exists w',
      acquire_times k w = (Ret tt, w') /\
      cancel_requested w' = false /\
      clock w' = clock w /\
      trace w' = trace w /\
      redis w' = redis w /\
      rate_limiter w' = Some (RateLimiter.mk H mpm (repeat (clock w) (j + k)) minute).
Proof.
  intros Hmin. induction k as [|k IH]; intros j w Hc Hrl Hle.
  - exists w. rewrite Nat.add_0_r. repeat split; assumption.
  - cbn [acquire_times]. unfold bind.
    destruct (acquire_hourly_post w _ Hrl Hmin Hc) as [w1 [Hrun [Hc1 [Hr1 [Hrl1 Hcases]]]]].
    { right. cbn. lia. }
    rewrite Hrun. cbn [RateLimiter.hourly_timestamps RateLimiter.max_per_hour
                       RateLimiter.max_per_minute RateLimiter.minute_timestamps] in *.
    rewrite drop_older_repeat in *. rewrite repeat_length in Hcases.
    destruct Hcases as [[_ [Hclock Htrace]]|[Hfull _]]; [|lia].
    rewrite Hclock in Hrl1.
    assert (Hrl1' : rate_limiter w1
                    = Some (RateLimiter.mk H mpm (repeat (clock w1) (S j)) minute)).
    { rewrite Hrl1, Hclock. f_equal. f_equal. symmetry. apply repeat_cons. }
    destruct (IH (S j) w1 Hc1 Hrl1') as [w' [Hrun' [G1 [G2 [G3 [G4 G5]]]]]]; [lia|].
    exists w'. split; [exact Hrun'|]. split; [exact G1|].
    split; [congruence|]. split; [congruence|]. split; [congruence|].
    rewrite G5, Hclock. f_equal. f_equal. f_equal. lia.
Qed.

(** X6. A fresh limiter without a per-minute limit grants its first
    [max_per_hour] permits at once: [k <= max_per_hour] calls of [acquire] in
    a row return without a sleep and without moving the clock, and leave [k]
    timestamps in the hourly deque. *)
Theorem acquire_first_permits_at_once (H : Z) (mpm : option Z) (k : nat) (w : World) :
  rate_limiter w = Some (RateLimiter.init H mpm) ->
  truthy_int mpm = false ->
  cancel_requested w = false ->
  Z.of_nat k <= H ->
  exists w',
    acquire_times k w = (Ret tt, w') /\
    clock w' = clock w /\
    trace w' = trace w /\
    hourly_window w' = repeat (clock w) k.
Proof.
  intros Hrl Hmin Hc Hk.
  destruct (acquire_times_free mpm [] H k Hmin 0 w Hc Hrl)
    as [w' [Hrun [_ [Hclock [Htrace [_ Hrl']]]]]]; [cbn; lia|].
  exists w'. split; [exact Hrun|]. split; [exact Hclock|]. split; [exact Htrace|].
  unfold hourly_window. rewrite Hrl'. reflexivity.
Qed.

(** X7. Without a per-minute limit: when the pruned hourly deque is at
    capacity and its oldest timestamp is less than one hour old, [acquire]
    sleeps once, for exactly the time until that timestamp is one hour old,
    and grants the permit at that instant. *)
Theorem acquire_waits_for_oldest (w : World) (rl : RateLimiter.t)
  (oldest : datetime) (rest : list datetime) :
  rate_limiter w = Some rl ->
  truthy_int (RateLimiter.max_per_minute rl) = false ->
  cancel_requested w = false ->
  drop_older (clock w - timedelta_hours 1) (RateLimiter.hourly_timestamps rl)
  = oldest :: rest ->
  RateLimiter.max_per_hour rl <= Z.of_nat (List.length (oldest :: rest)) ->
  clock w - timedelta_hours 1 < oldest ->
  exists w',
    acquire w = (Ret tt, w') /\
    clock w' = oldest + timedelta_hours 1 /\
    trace w' = trace w ++ [Sleep (oldest + timedelta_hours 1 - clock w)] /\
    last (hourly_window w') 0 = oldest + timedelta_hours 1.
Proof.
  intros Hrl Hmin Hc Hd Hfull Hfresh.
  destruct (acquire_hourly_post w rl Hrl Hmin Hc) as [w' [Hrun [_ [_ [Hrl' Hcases]]]]].
  { left. rewrite Hd. discriminate. }
  exists w'. split; [exact Hrun|]. rewrite Hd in Hcases, Hrl'.
  destruct Hcases as [[Hlen _]|[_ [o [r [Ho [[_ [Hclock Htrace]]|[Hold _]]]]]]].
  - lia.
  - injection Ho as <- <-. split; [exact Hclock|]. split; [exact Htrace|].
    unfold hourly_window. rewrite Hrl'. cbn [RateLimiter.hourly_timestamps].
    rewrite last_last. exact Hclock.
  - injection Ho as <- <-. lia.
Qed.

Lemma validated_positive rl :
  validated rl ->
  0 < RateLimiter.max_per_hour rl /\
  forall m, RateLimiter.max_per_minute rl = Some m -> 0 < m.
Proof.
  unfold validated, validate_max_per_hour, validate_max_per_minute.
  intros [Hh Hm]. split.
  - destruct (Z.leb_spec (RateLimiter.max_per_hour rl) 0); [discriminate|lia].
  - intros m E. rewrite E in Hm.
    destruct (Z.leb_spec m 0); [discriminate|lia].
Qed.

Lemma positive_validated rl :
  0 < RateLimiter.max_per_hour rl ->
  (forall m, RateLimiter.max_per_minute rl = Some m -> 0 < m) ->
  validated rl.
Proof.
  unfold validated, validate_max_per_hour, validate_max_per_minute.
  intros Hh Hm. split.
  - destruct (Z.leb_spec (RateLimiter.max_per_hour rl) 0); [lia|reflexivity].
  - destruct (RateLimiter.max_per_minute rl) as [m|]; [|reflexivity].
    specialize (Hm m eq_refl). destruct (Z.leb_spec m 0); [lia|reflexivity].
Qed.

Lemma wait_hourly_validated fuel : forall now w H mpm r w',
  limiter_maxima H mpm w -> 0 < H ->
  wait_hourly fuel now w = (r, w') ->
  (forall msg, r <> Raise (Exception msg)) /\ limiter_maxima H mpm w'.
Proof.
  induction fuel as [|fuel IH]; intros now w H mpm r w' Hlim HH Hrun;
    pose proof Hlim as [rl [Hrl [Hmax Hmpm]]];
    cbn [wait_hourly] in Hrun; unfold bind at 1, self_limiter in Hrun;
    rewrite Hrl in Hrun; rewrite Hmax in Hrun.
  - destruct (_ >=? _); injection Hrun as <- <-; split; auto; discriminate.
  - destruct (RateLimiter.hourly_timestamps rl) as [|oldest rest].
    { destruct (Z.geb_spec (Z.of_nat (List.length (@nil datetime))) H) as [Hge|_];
        [cbn in Hge; lia|].
      injection Hrun as <- <-. split; [discriminate|exact Hlim]. }
    destruct (_ >=? _); [|injection Hrun as <- <-; split; [discriminate|exact Hlim]].
    cbv zeta in Hrun.
    destruct (_ >? 0); [|injection Hrun as <- <-; split; [discriminate|exact Hlim]].
    unfold bind at 1 in Hrun.
    destruct (cancel_requested w) eqn:Hc.
    + rewrite sleep_cancelled in Hrun by exact Hc. injection Hrun as <- <-.
      split; [discriminate|]. exists rl. auto.
    + rewrite sleep_run in Hrun by exact Hc.
      unfold bind at 1, utcnow in Hrun.
      unfold bind at 1, update_limiter, modify in Hrun.
      eapply IH; [|exact HH|exact Hrun].
      cbn [rate_limiter with_rate_limiter emit with_clock]. rewrite Hrl.
      eexists. split; [reflexivity|]. auto.
Qed.

Lemma wait_minute_validated fuel m : forall now w H mpm r w',
  limiter_maxima H mpm w -> 0 < m ->
  wait_minute fuel m now w = (r, w') ->
  (forall msg, r <> Raise (Exception msg)) /\ limiter_maxima H mpm w'.
Proof.
  induction fuel as [|fuel IH]; intros now w H mpm r w' Hlim Hm Hrun;
    pose proof Hlim as [rl [Hrl [Hmax Hmpm]]];
    cbn [wait_minute] in Hrun; unfold bind at 1, self_limiter in Hrun;
    rewrite Hrl in Hrun.
  - destruct (_ >=? _); injection Hrun as <- <-; split; auto; discriminate.
  - destruct (RateLimiter.minute_timestamps rl) as [|oldest rest].
    { destruct (Z.geb_spec (Z.of_nat (List.length (@nil datetime))) m) as [Hge|_];
        [cbn in Hge; lia|].
      injection Hrun as <- <-. split; [discriminate|exact Hlim]. }
    destruct (_ >=? _); [|injection Hrun as <- <-; split; [discriminate|exact Hlim]].
    cbv zeta in Hrun.
    destruct (_ >? 0); [|injection Hrun as <- <-; split; [discriminate|exact Hlim]].
    unfold bind at 1 in Hrun.
    destruct (cancel_requested w) eqn:Hc.
    + rewrite sleep_cancelled in Hrun by exact Hc. injection Hrun as <- <-.
      split; [discriminate|]. exists rl. auto.
    + rewrite sleep_run in Hrun by exact Hc.
      unfold bind at 1, utcnow in Hrun.
      unfold bind at 1, update_limiter, modify in Hrun.
      eapply IH; [|exact Hm|exact Hrun].
      cbn [rate_limiter with_rate_limiter emit with_clock]. rewrite Hrl.
      eexists. split; [reflexivity|]. auto.
Qed.

(** X8. A limiter whose maxima pass the validators of [RateLimitSettings]
    never raises: [acquire], when it is not cancelled, returns (after
    sleeping if it must), with the time of the grant as the last hourly
    timestamp, and the maxima are as before, so the next call is in the same
    position. *)
Theorem acquire_validated_returns (w : World) (rl : RateLimiter.t) :
  rate_limiter w = Some rl ->
  validated rl ->
  cancel_requested w = false ->
  exists w' rl',
    acquire w = (Ret tt, w') /\
    cancel_requested w' = false /\
    rate_limiter w' = Some rl' /\
    validated rl' /\
    RateLimiter.max_per_hour rl' = RateLimiter.max_per_hour rl /\
    RateLimiter.max_per_minute rl' = RateLimiter.max_per_minute rl /\
    last (RateLimiter.hourly_timestamps rl') 0 = clock w'.
Proof.
  intros Hrl Hval Hc.
  destruct (validated_positive rl Hval) as [HH Hmpm].
  unfold acquire, acquire_with.
  unfold bind at 1, utcnow. unfold bind at 1, update_limiter at 1, modify.
  set (w1 := with_rate_limiter _ w).
  assert (Hlim1 : limiter_maxima (RateLimiter.max_per_hour rl)
                    (RateLimiter.max_per_minute rl) w1).
  { subst w1. cbn [rate_limiter with_rate_limiter]. rewrite Hrl.
    eexists. split; [reflexivity|]. auto. }
  unfold bind at 1.
  destruct (wait_hourly_enough 0 w1) as [r1 [w2 [Hrun1 [_ [Hs1 Ht1]]]]].
  change (clock w) with (clock w1). rewrite Hrun1.
  destruct (wait_hourly_validated _ _ _ _ _ _ _ Hlim1 HH Hrun1) as [Hne1 Hlim2].
  destruct r1 as [t1|[msg|]|]; cbn in Hs1.
  2:{ exfalso. exact (Hne1 msg eq_refl). }
  2:{ exfalso. destruct Hs1 as [Hs1 _]. subst w1. cbn in Hs1. congruence. }
  2:{ contradiction. }
  rewrite (Ht1 t1 eq_refl).
  assert (Hc2 : cancel_requested w2 = false) by (rewrite Hs1; exact Hc).
  destruct Hlim2 as [rl2 [Hrl2 [Hmax2 Hmpm2]]].
  unfold bind at 1, self_limiter. rewrite Hrl2.
  assert (Hend : forall w3 rl3,
    cancel_requested w3 = false ->
    rate_limiter w3 = Some rl3 ->
    RateLimiter.max_per_hour rl3 = RateLimiter.max_per_hour rl ->
    RateLimiter.max_per_minute rl3 = RateLimiter.max_per_minute rl ->
    exists w' rl',
      update_limiter (record_send (clock w3)) w3 = (Ret tt, w') /\
      cancel_requested w' = false /\
      rate_limiter w' = Some rl' /\
      validated rl' /\
      RateLimiter.max_per_hour rl' = RateLimiter.max_per_hour rl /\
      RateLimiter.max_per_minute rl' = RateLimiter.max_per_minute rl /\
      last (RateLimiter.hourly_timestamps rl') 0 = clock w').
  { intros w3 rl3 Hc3 Hrl3 E1 E2. unfold update_limiter, modify.
    do 2 eexists. split; [reflexivity|].
    cbn [cancel_requested rate_limiter clock with_rate_limiter]. rewrite Hrl3.
    split; [exact Hc3|]. split; [reflexivity|].
    split; [apply positive_validated; cbn; rewrite ?E1, ?E2; assumption|].
    split; [exact E1|]. split; [exact E2|].
    cbn. apply last_last. }
  unfold bind at 1.
  destruct (RateLimiter.max_per_minute rl2) as [m|] eqn:Em.
  2:{ unfold ret at 1. apply (Hend w2 rl2); congruence. }
  destruct (truthy_int (Some m)).
  2:{ unfold ret at 1. apply (Hend w2 rl2); congruence. }
  destruct (wait_minute_enough 0 m w2) as [r3 [w3 [Hrun3 [_ [Hs3 Ht3]]]]].
  rewrite Hrun3.
  assert (Hlim2 : limiter_maxima (RateLimiter.max_per_hour rl)
                    (RateLimiter.max_per_minute rl) w2).
  { exists rl2. split; [exact Hrl2|]. split; congruence. }
  assert (Hm : 0 < m) by (apply Hmpm; congruence).
  destruct (wait_minute_validated _ _ _ _ _ _ _ _ Hlim2 Hm Hrun3) as [Hne3 Hlim3].
  destruct r3 as [t3|[msg|]|]; cbn in Hs3.
  2:{ exfalso. exact (Hne3 msg eq_refl). }
  2:{ exfalso. destruct Hs3 as [Hs3 _]. congruence. }
  2:{ contradiction. }
  rewrite (Ht3 t3 eq_refl).
  destruct Hlim3 as [rl3 [Hrl3 [Hmax3 Hmpm3]]].
  apply (Hend w3 rl3); congruence.
Qed.

(** X9. A limiter built with [max_per_hour <= 0], which the validator of the
    settings refuses, does not block: with an empty hourly deque [acquire]
    reads [hourly_timestamps[0]] and raises IndexError, and no permit is
    recorded. *)
Theorem acquire_unvalidated_raises (w : World) (rl : RateLimiter.t) :
  rate_limiter w = Some rl ->
  RateLimiter.hourly_timestamps rl = [] ->
  RateLimiter.max_per_hour rl <= 0 ->
  validate_max_per_hour (RateLimiter.max_per_hour rl)
  = inr "max_emails_per_hour must be greater than 0"%string /\
  exists w',
    acquire w = (Raise (Exception "deque index out of range"), w') /\
    hourly_window w' = [] /\
    clock w' = clock w /\
    trace w' = trace w.
Proof.
  intros Hrl Hempty Hmax. split.
  - unfold validate_max_per_hour.
    destruct (Z.leb_spec (RateLimiter.max_per_hour rl) 0); [reflexivity|lia].
  - unfold acquire, acquire_with.
    unfold bind at 1, utcnow. unfold bind at 1, update_limiter at 1, modify.
    rewrite Hrl. cbn [option_map].
    unfold bind at 1. cbn [wait_hourly]. unfold bind at 1, self_limiter.
    cbn [rate_limiter with_rate_limiter].
    unfold _cleanup_timestamps at 1 2 3. cbn [RateLimiter.hourly_timestamps
                                               RateLimiter.max_per_hour].
    rewrite Hempty. cbn [drop_older List.length Z.of_nat].
    destruct (Z.geb_spec 0 (RateLimiter.max_per_hour rl)); [|lia].
    eexists. split; [reflexivity|].
    unfold hourly_window. cbn. rewrite Hempty. auto.
Qed.

(** *** The queue seen by producers and consumers *)

Lemma store_eta s : mkStore (main_q s) (retry_q s) (dlq_q s) = s.
Proof. now destruct s. Qed.

Lemma rpop_last {A} (l : list A) (x d : A) :
  rpop (x :: l) = (Some (last (x :: l) d), removelast (x :: l)).
Proof.
  destruct (snoc_cases l) as [->|[l' [y ->]]]; [reflexivity|].
  change (x :: l' ++ [y]) with ((x :: l') ++ [y]).
  rewrite rpop_snoc, last_last, removelast_last. reflexivity.
Qed.

(** X10. [enqueue] followed by [dequeue]: a high-priority item is the very
    next item out and the store is as before, whatever was waiting; a normal
    item comes out at once only if nothing was waiting, otherwise the item at
    the right end of the main list does and the new one joins the left end. *)
Theorem enqueue_then_dequeue (email : EmailMessage.t) (w : World) :
  let item := QueuedEmail.mk email (clock w) 0 None None in
  cancel_requested w = false ->
  (exists w',
     (enqueue email true ;; dequeue 0) w = (Ret (Some item), w') /\
     redis w' = redis w) /\
  (exists w',
     (enqueue email false ;; dequeue 0) w
     = (Ret (Some (last (main_q (redis w)) item)), w') /\
     main_q (redis w') = removelast (item :: main_q (redis w)) /\
     retry_q (redis w') = retry_q (redis w) /\
     dlq_q (redis w') = dlq_q (redis w)).
Proof.
  intros item Hc.
  assert (Hstep : forall priority,
    exists w1,
      enqueue email priority w = (Ret tt, w1) /\
      cancel_requested w1 = false /\
      ensured w1 = w1 /\
      redis w1 = store_push (negb priority) Main item (redis w)).
  { intros priority. rewrite enqueue_run by exact Hc. cbv zeta. fold item.
    eexists. split; [reflexivity|]. split; [|split].
    - cbn. now rewrite ensured_cancel.
    - unfold ensured at 1. cbn [connected emit with_redis].
      now rewrite ensured_connected.
    - cbn. now rewrite ensured_redis. }
  split.
  - destruct (Hstep true) as [w1 [Hrun [Hc1 [He1 Hr1]]]].
    unfold bind. rewrite Hrun, (dequeue_run w1 Hc1), He1, Hr1.
    cbn [negb store_push main_q]. unfold rpush. rewrite rpop_snoc. cbn [fst snd].
    eexists. split; [reflexivity|].
    cbn [redis with_redis emit]. rewrite Hr1. cbn. apply store_eta.
  - destruct (Hstep false) as [w1 [Hrun [Hc1 [He1 Hr1]]]].
    unfold bind. rewrite Hrun, (dequeue_run w1 Hc1), He1, Hr1.
    cbn [negb store_push main_q]. unfold lpush.
    rewrite (rpop_last (main_q (redis w)) item item). cbn [fst snd].
    eexists. split.
    + f_equal. f_equal. f_equal.
      destruct (main_q (redis w)); reflexivity.
    + cbn [redis with_redis emit]. rewrite Hr1. cbn. auto.
Qed.




(** X13. Every [enqueue] adds exactly one item to the main list and none
    elsewhere: after any sequence of them [get_queue_size] has grown by their
    number, and the sizes of the retry set and the dead-letter list are as
    before. *)
Theorem enqueue_all_sizes (ops : list (datetime * EmailMessage.t * bool)) (w : World) :
  cancel_requested w = false ->
  exists w',
    enqueue_all ops w = (Ret tt, w') /\
    fst (get_queue_size w')
    = Ret (Z.of_nat (List.length (main_q (redis w))) + Z.of_nat (List.length ops)) /\
    fst (get_retry_queue_size w') = fst (get_retry_queue_size w) /\
    fst (get_dlq_size w') = fst (get_dlq_size w).
Proof.
  intros Hc.
  destruct (enqueue_all_run ops w Hc) as [w' [Hrun [Hc' [Hm [Hr Hd]]]]].
  exists w'. split; [exact Hrun|].
  unfold get_queue_size, get_retry_queue_size, get_dlq_size, bind.
  rewrite !_ensure_connected_run by assumption.
  cbn [fst]. rewrite !ensured_redis, Hm, Hr, Hd.
  rewrite !length_app, length_rev.
  pose proof (lanes_length ops). repeat split. f_equal. lia.
Qed.

(** ** The worker loop from the inside *)

Lemma poll_cycle_run w :
  cancel_requested w = false ->
  exists w',
    poll_cycle env w = (Ret tt, w') /\
    cancel_requested w' = false /\ running w' = running w.
Proof.
  intros Hc. unfold poll_cycle, _process_retry_queue, _process_main_queue.
  unfold bind at 1. unfold bind at 1.
  destruct (get_retry_emails_run w Hc) as [w1 [Hrun [F1 _]]]. rewrite Hrun.
  destruct (retry_each_run (zrangebyscore 0 (clock w) (retry_q (redis w))) w1 F1)
    as [w2 [t1 [Hrun1 [G1 [G2 _]]]]].
  rewrite Hrun1.
  destruct (process_batch_run
              (Z.to_nat (QueueSettings.batch_size (queue_config env))) w2 G1)
    as [w3 [t2 [Hrun2 [H1 [H2 _]]]]].
  rewrite Hrun2. exists w3. split; [reflexivity|]. split; [exact H1|].
  rewrite H2, G2. exact (kr_get_retry_emails _ _ _ Hrun).
Qed.

Lemma loop_turn_poll_cycle_run w :
  cancel_requested w = false ->
  exists w',
    loop_turn env (poll_cycle env) w = (Ret true, w') /\
    cancel_requested w' = false /\ running w' = running w.
Proof.
  intros Hc. unfold loop_turn, bind.
  destruct (poll_cycle_run w Hc) as [w1 [Hrun [Hc1 Hr1]]].
  rewrite Hrun, (sleep_run _ w1 Hc1).
  eexists. split; [reflexivity|]. split; [exact Hc1|exact Hr1].
Qed.

(** X14. The worker loop never ends by itself.  While [_running] is set and
    the task is not cancelled, every turn of the loop comes to its end and
    starts the next one, whatever the sender and the transport answer: no
    number of turns is enough for [_process_loop] to return.  So a loop that
    has returned was stopped or cancelled. *)
Theorem _process_loop_runs_until_stopped (fuel : nat) (w : World) :
  running w = true ->
  cancel_requested w = false ->
  exists w',
    _process_loop env fuel w = (OutOfFuel, w') /\
    running w' = true /\ cancel_requested w' = false.
Proof.
  revert w. induction fuel as [|fuel IH]; intros w Hr Hc; cbn [_process_loop];
    rewrite Hr.
  - exists w. auto.
  - unfold bind.
    destruct (loop_turn_poll_cycle_run w Hc) as [w1 [Hrun [Hc1 Hr1]]].
    rewrite Hrun. apply IH; congruence.
Qed.

(** X15. [stop] while the worker sleeps between two polls: the sleep is
    cancelled, the loop ends, and [stop] returns with the worker stopped and
    disconnected.  The store, the outbox, the transport and the clock are as
    they were. *)
Theorem stop_while_sleeping (fuel : nat) (w : World) :
  running w = true ->
  exists w',
    stop (Some (suspended_loop env (ret tt) fuel)) w = (Ret tt, w') /\
    redis w' = redis w /\ outbox w' = outbox w /\
    smtp_calls w' = smtp_calls w /\ clock w' = clock w /\
    running w' = false /\ connected w' = false /\ cancel_requested w' = false.
Proof.
  intros Hr. unfold stop. rewrite Hr. cbn [negb].
  unfold bind at 1, modify. unfold bind at 1.
  unfold cancel_and_await, suspended_loop, bind at 1, loop_turn, bind at 1, ret at 1.
  rewrite sleep_cancelled by reflexivity. cbv beta iota. unfold ret.
  unfold disconnect. cbn [connected with_cancel_requested emit with_running].
  destruct (connected w) eqn:Hcon; eexists; (split; [reflexivity|]);
    cbn; repeat split; auto.
Qed.

(** X16. [start] on a running worker does nothing, so two calls in a row do
    what one does; and a worker that is started and stopped before its task
    has run a turn leaves the store and the outbox as they were. *)
Theorem start_idempotent (fuel : nat) (w : World) :
  (start ;; start) w = start w /\
  (running w = true -> start w = (Ret tt, w)) /\
  (running w = false -> cancel_requested w = false ->
   exists w1 w2,
     start w = (Ret tt, w1) /\ running w1 = true /\ connected w1 = true /\
     stop (Some (_process_loop env fuel)) w1 = (Ret tt, w2) /\
     redis w2 = redis w /\ outbox w2 = outbox w /\
     running w2 = false /\ connected w2 = false).
Proof.
  split; [|split].
  - unfold bind, start at 1 3. destruct (running w) eqn:Hr.
    + unfold start. now rewrite Hr.
    + unfold bind, modify, connect. cbn [connected with_running].
      destruct (connected w); [unfold start; reflexivity|].
      unfold bind, modify, checkpoint. cbn [cancel_requested with_connected with_running].
      destruct (cancel_requested w); reflexivity.
  - intros Hr. unfold start. now rewrite Hr.
  - intros Hr Hc. unfold start. rewrite Hr.
    unfold bind, modify, connect. cbn [connected with_running].
    destruct (connected w) eqn:Hcon.
    + eexists. eexists. split; [reflexivity|]. split; [reflexivity|].
      split; [exact Hcon|].
      unfold stop. cbn [running with_running negb].
      unfold bind, modify, cancel_and_await.
      destruct fuel; cbn [_process_loop running with_running emit with_cancel_requested];
        unfold disconnect; cbn; rewrite Hcon; (split; [reflexivity|]); cbn; auto.
    + unfold bind, modify, checkpoint.
      cbn [cancel_requested with_connected with_running]. rewrite Hc.
      eexists. eexists. split; [reflexivity|]. split; [reflexivity|].
      split; [reflexivity|].
      unfold stop. cbn [running with_running negb emit with_connected].
      unfold bind, modify, cancel_and_await.
      destruct fuel; cbn [_process_loop running with_running emit with_cancel_requested];
        unfold disconnect; cbn; (split; [reflexivity|]); cbn; auto.
Qed.

(** ** settings.py: looking up an account *)

Lemma dict_get_has_key {V} (d : list (string * V)) k :
  existsb (fun k' => String.eqb k' k) (map fst d) = true
  <-> exists v, dict_get d k = Some v.
Proof.
  induction d as [|[k' v] d IH]; cbn.
  - split; [discriminate|]. intros [v H]. discriminate H.
  - destruct (String.eqb k' k); cbn; [|exact IH].
    split; [eauto|reflexivity].
Qed.

Lemma dict_get_In {V} (d : list (string * V)) k v :
  dict_get d k = Some v -> In (k, v) d.
Proof.
  induction d as [|[k' v'] d IH]; cbn; [discriminate|].
  destruct (String.eqb_spec k' k) as [->|_].
  - intros [= ->]. left. reflexivity.
  - intros H. right. apply IH, H.
Qed.

(** X17. [get_smtp_account] returns an account exactly for the names
    [has_account] accepts, the default account standing in for a missing or
    empty name; the account returned is registered under that name. *)
Theorem get_smtp_account_iff_has_account (cfg : MailSettings.t)
  (account_name : option string) :
  let name := str_or account_name (MailSettings.default_account cfg) in
  (has_account cfg name = true
   <-> exists acct, get_smtp_account cfg account_name = inl acct) /\
  (forall acct,
     get_smtp_account cfg account_name = inl acct ->
     In (name, acct) (MailSettings.smtp_accounts cfg)) /\
  (account_name = None \/ account_name = Some EmptyString ->
   get_smtp_account cfg account_name
   = get_smtp_account cfg (Some (MailSettings.default_account cfg))).
Proof.
  intros name. unfold has_account, get_smtp_account. fold name.
  split; [|split].
  - rewrite dict_get_has_key.
    destruct (dict_get _ name) as [acct|]; split; eauto.
    + intros [v H]. discriminate H.
    + intros [v H]. discriminate H.
  - intros acct. destruct (dict_get _ name) as [a|] eqn:E; [|discriminate].
    intros [= <-]. apply dict_get_In, E.
  - intros H. subst name.
    assert (E : str_or account_name (MailSettings.default_account cfg)
                = str_or (Some (MailSettings.default_account cfg))
                    (MailSettings.default_account cfg)).
    { destruct H as [->| ->]; cbn;
        destruct (String.eqb_spec (MailSettings.default_account cfg) EmptyString);
        congruence. }
    rewrite E. reflexivity.
Qed.

(** ** sender.py: what reaches the transport *)

(** Rendering writes [html] or [body] and nothing else. *)
Lemma _render_template_cases email :
  exists r,
    (forall w, _render_template env email w = (r, w)) /\
    match r with
    | Ret email' =>
        EmailMessage.to email' = EmailMessage.to email /\
        EmailMessage.subject email' = EmailMessage.subject email /\
        EmailMessage.template_name email' = EmailMessage.template_name email /\
        EmailMessage.priority email' = EmailMessage.priority email /\
        EmailMessage.smtp_account email' = EmailMessage.smtp_account email /\
        (email' = email \/
         exists render rendered name,
           jinja_env env = Some render /\ render email = inl rendered /\
           EmailMessage.template_name email = Some name /\
           if endswith name ".html"
           then EmailMessage.html email' = Some rendered /\
                EmailMessage.body email' = EmailMessage.body email
           else EmailMessage.body email' = Some rendered /\
                EmailMessage.html email' = EmailMessage.html email)
    | Raise (Exception msg) =>
        (jinja_env env = None /\ msg = "Templates are not enabled in configuration"%string)
        \/ (exists render, jinja_env env = Some render /\ render email = inr msg /\
                           truthy_str (EmailMessage.template_name email) = true)
    | _ => False
    end.
Proof.
  unfold _render_template.
  destruct (jinja_env env) as [render|];
    [|eexists; split; [reflexivity|left; split; reflexivity]].
  destruct email as [to subject body html [name|] priority account]; cbn;
    [|eexists; split; [reflexivity|]; repeat split; left; reflexivity].
  destruct (String.eqb name EmptyString) eqn:En;
    [eexists; split; [reflexivity|]; repeat split; left; reflexivity|].
  destruct (render _) as [rendered|msg] eqn:Er.
  - destruct (endswith name ".html") eqn:Eh; eexists; (split; [reflexivity|]);
      cbn; repeat split; right; exists render, rendered, name;
      rewrite Eh; repeat split; assumption.
  - eexists. split; [reflexivity|]. right. exists render. repeat split; assumption.
Qed.


Lemma render_stage_cases email :
  exists r,
    (forall w, render_stage env email w = (r, w)) /\
    match r with
    | Ret email' =>
        EmailMessage.to email' = EmailMessage.to email /\
        EmailMessage.subject email' = EmailMessage.subject email /\
        (truthy_str (EmailMessage.template_name email) = false -> email' = email)
    | Raise (Exception msg) =>
        truthy_str (EmailMessage.template_name email) = true /\
        (jinja_env env = None ->
         msg = "Templates are not enabled in configuration"%string)
    | _ => False
    end.
Proof.
  unfold render_stage. destruct (truthy_str _) eqn:Et.
  - destruct (_render_template_cases email) as [r [Hr Hcases]].
    exists r. split; [exact Hr|].
    destruct r as [email'|[msg|]|]; try contradiction.
    + destruct Hcases as [H1 [H2 _]]. repeat split; try assumption. discriminate.
    + split; [reflexivity|]. intros Hj.
      destruct Hcases as [[_ ->]|[render [Hj' _]]]; [reflexivity|congruence].
  - eexists. split; [reflexivity|]. repeat split.
Qed.

Lemma send_email_try_calls email w :
  exists r w',
    send_email_try env email w = (r, w') /\
    redis w' = redis w /\
    ((smtp_calls w' = smtp_calls w /\ outbox w' = outbox w)
     \/ (smtp_calls w' = S (smtp_calls w) /\
         (outbox w' = outbox w
          \/ exists email' message_id,
               outbox w' = (email', message_id) :: outbox w /\
               EmailMessage.to email' = EmailMessage.to email /\
               EmailMessage.subject email' = EmailMessage.subject email /\
               (truthy_str (EmailMessage.template_name email) = false ->
                email' = email)))).
Proof.
  unfold send_email_try, try_except.
  destruct (get_smtp_account _ _) as [acct|msg].
  2:{ do 2 eexists. split; [reflexivity|]. split; [reflexivity|]. left. auto. }
  unfold bind at 1.
  destruct (render_stage_cases email) as [r [Hr Hcases]]. rewrite Hr.
  destruct r as [email'|[msg|]|]; try contradiction.
  2:{ do 2 eexists. split; [reflexivity|]. split; [reflexivity|]. left. auto. }
  unfold bind at 1.
  destruct (cancel_requested w) eqn:Hc.
  - rewrite _send_smtp_cancelled by exact Hc.
    do 2 eexists. split; [reflexivity|]. split; [reflexivity|]. left. auto.
  - rewrite _send_smtp_run by exact Hc.
    destruct (transport env (smtp_calls w) email' acct) as [id dt|msg dt].
    + unfold bind, utcnow, ret. do 2 eexists. split; [reflexivity|].
      split; [reflexivity|]. right. split; [reflexivity|]. right.
      exists email', id. split; [reflexivity|]. exact Hcases.
    + do 2 eexists. split; [reflexivity|]. split; [reflexivity|].
      right. split; [reflexivity|]. left. reflexivity.
Qed.

(** X19. One call of [send_email] calls the transport at most once, also
    when it is cancelled or the limiter makes it wait.  The outbox changes
    only with such a call, by the one message the transport accepted; that
    message has the recipients and the subject of the caller's, and is the
    caller's message itself when it names no template.  The store is not
    touched. *)
Theorem send_email_calls_transport_at_most_once (email : EmailMessage.t) (w : World) :
  let w' := snd (send_email env email w) in
  redis w' = redis w /\
  ((smtp_calls w' = smtp_calls w /\ outbox w' = outbox w)
   \/ (smtp_calls w' = S (smtp_calls w) /\
       (outbox w' = outbox w
        \/ exists email' message_id,
             outbox w' = (email', message_id) :: outbox w /\
             EmailMessage.to email' = EmailMessage.to email /\
             EmailMessage.subject email' = EmailMessage.subject email /\
             (truthy_str (EmailMessage.template_name email) = false ->
              email' = email)))).
Proof.
  intros w'. subst w'. unfold send_email, bind.
  destruct (rate_limit_gate_spec w) as [r [w1 [Hrun [[Q1 Q2 Q3 _ _ _] _]]]].
  rewrite Hrun.
  destruct r as [[]|e|]; cbn [snd]; try (split; [exact Q1|left; auto]).
  destruct (send_email_try_calls email w1) as [r [w2 [Htry [R Hc]]]].
  rewrite Htry. cbn [snd]. rewrite <- Q1, <- Q2, <- Q3. split; [exact R|].
  destruct Hc as [Hc|[Hn [Ho|[e [id [Ho Hf]]]]]]; [left; exact Hc|right..].
  - split; [exact Hn|left; exact Ho].
  - split; [exact Hn|right]. exists e, id. split; [exact Ho|exact Hf].
Qed.

(** X20. A failure before the transport costs nothing.  Once the limiter
    has let the call pass, an unknown account, or a template when templates
    are disabled, makes [send_email] return FAILED with the text of the
    error at once: the transport is not called, and the world is the one
    the limiter left.  The account is looked up first, so its error is the
    one reported when both apply. *)
Theorem send_email_fails_before_transport (email : EmailMessage.t) (w w1 : World) :
  rate_limit_gate w = (Ret tt, w1) ->
  let failed msg :=
    EmailResult.mk FAILED None (Some msg) None 0
      (Some (str_or (EmailMessage.smtp_account email)
               (MailSettings.default_account (config env)))) in
  match get_smtp_account (config env) (EmailMessage.smtp_account email) with
  | inr msg => send_email env email w = (Ret (failed msg), w1)
  | inl _ =>
      truthy_str (EmailMessage.template_name email) = true ->
      jinja_env env = None ->
      send_email env email w
      = (Ret (failed "Templates are not enabled in configuration"%string), w1)
  end.
Proof.
  intros Hgate failed. unfold send_email, bind. rewrite Hgate.
  unfold send_email_try, try_except.
  destruct (get_smtp_account _ _) as [acct|msg]; [|reflexivity].
  intros Ht Hj. unfold bind at 1.
  destruct (render_stage_cases email) as [r [Hr Hcases]]. rewrite Hr.
  destruct r as [email'|[msg|]|]; try contradiction.
  - exfalso. specialize (Hr w1). unfold render_stage, _render_template in Hr.
    rewrite Ht, Hj in Hr. discriminate Hr.
  - destruct Hcases as [_ Hm]. rewrite (Hm Hj). reflexivity.
Qed.

(** ** worker.py: the two outcomes of a delivery *)



(** ** queue.py: clearing a segment *)

Lemma redis_delete_run k w :
  cancel_requested w = false ->
  (_ensure_connected ;; redis_delete k) w =
    (Ret tt,
     with_redis (fun s =>
       match k with
       | QueueName => mkStore [] (retry_q s) (dlq_q s)
       | RetryQueueName => mkStore (main_q s) [] (dlq_q s)
       | DeadLetterQueueName => mkStore (main_q s) (retry_q s) []
       end) (ensured w)).
Proof.
  intros Hc. unfold bind at 1. rewrite (_ensure_connected_run w Hc).
  unfold redis_delete, bind, modify.
  rewrite checkpoint_run by now rewrite ensured_cancel.
  reflexivity.
Qed.

Lemma sizes_run w :
  cancel_requested w = false ->
  fst (sizes w)
  = Ret (Z.of_nat (List.length (main_q (redis w))),
         Z.of_nat (List.length (retry_q (redis w))),
         Z.of_nat (List.length (dlq_q (redis w)))).
Proof.
  intros Hc. unfold sizes, get_queue_size, get_retry_queue_size, get_dlq_size, bind.
  rewrite (_ensure_connected_run w Hc). cbv beta iota.
  rewrite _ensure_connected_run by now rewrite ensured_cancel. cbv beta iota.
  rewrite _ensure_connected_run by now rewrite !ensured_cancel. cbv beta iota.
  unfold ret. cbn [fst]. now rewrite !ensured_redis.
Qed.

(** X22. Each of [clear_queue], [clear_retry_queue] and [clear_dlq] empties
    its own segment and leaves the sizes of the other two as they were.
    After [clear_queue] a [dequeue] finds nothing, and after
    [clear_retry_queue] so does [get_retry_emails], whatever the clock. *)
Theorem clear_empties_one_segment (t : datetime) (w : World) :
  cancel_requested w = false ->
  let n := Z.of_nat (List.length (main_q (redis w))) in
  let r := Z.of_nat (List.length (retry_q (redis w))) in
  let d := Z.of_nat (List.length (dlq_q (redis w))) in
  fst ((clear_queue ;; sizes) w) = Ret (0, r, d) /\
  fst ((clear_retry_queue ;; sizes) w) = Ret (n, 0, d) /\
  fst ((clear_dlq ;; sizes) w) = Ret (n, r, 0) /\
  fst ((clear_queue ;; dequeue 0) w) = Ret None /\
  fst ((clear_retry_queue ;; modify (with_clock t) ;; get_retry_emails) w) = Ret [].
Proof.
  intros Hc n r d.
  assert (Hc' : forall f, cancel_requested (with_redis f (ensured w)) = false)
    by (intros; cbn; now rewrite ensured_cancel).
  unfold clear_queue, clear_retry_queue, clear_dlq.
  split; [|split; [|split; [|split]]].
  - unfold bind at 1. rewrite (redis_delete_run QueueName w Hc).
    rewrite sizes_run by apply Hc'.
    cbn. now rewrite ensured_redis.
  - unfold bind at 1. rewrite (redis_delete_run RetryQueueName w Hc).
    rewrite sizes_run by apply Hc'.
    cbn. now rewrite ensured_redis.
  - unfold bind at 1. rewrite (redis_delete_run DeadLetterQueueName w Hc).
    rewrite sizes_run by apply Hc'.
    cbn. now rewrite ensured_redis.
  - unfold bind at 1. rewrite (redis_delete_run QueueName w Hc).
    rewrite dequeue_run by apply Hc'.
    reflexivity.
  - unfold bind at 1. rewrite (redis_delete_run RetryQueueName w Hc).
    unfold bind at 1, modify.
    match goal with |- fst (get_retry_emails ?v) = _ =>
      destruct (get_retry_emails_run v) as [w' [Hrun _]];
        [cbn; now rewrite ensured_cancel|rewrite Hrun] end.
    reflexivity.
Qed.


End Properties.

(** ** The rate limiter at the edge of its window *)

(** C5. With [max_per_hour = 1] and the mocked clock at 0, three calls of
    [acquire] in a row all return: the second sleeps for the hour and is
    granted at 3600 s, when the first timestamp is exactly one hour old and
    so neither pruned nor waited for; the third is granted at that same
    instant.  Two permits lie in the trailing hour of the last grant, and the
    limiter's own window holds three timestamps. *)
Theorem acquire_grants_beyond_limit :
  exists w2 w3,
    (acquire ;; acquire) (limited_world 1 0) = (Ret tt, w2) /\
    hourly_window w2 = [0; 3600000000] /\
    (acquire ;; acquire ;; acquire) (limited_world 1 0) = (Ret tt, w3) /\
    hourly_window w3 = [0; 3600000000; 3600000000] /\
    clock w3 = 3600000000 /\
    trace w3 = [Sleep 3600000000] /\
    grants_in_trailing_hour (clock w3) (hourly_window w3) = 2%nat.
Proof.
  do 2 eexists. repeat split; vm_compute; reflexivity.
Qed.

(** ** Counterexamples *)

(** Two high-priority items X, then Y: [dequeue] returns Y first. *)
Lemma dequeue_high_lane_not_fifo :
  ~ dequeues_fifo_lanes [(0, mail "X", true); (1, mail "Y", true)] (idle_world 0).
Proof.
  intros [w' H]. vm_compute in H. discriminate H.
Qed.

(** Two callers read the due entry before either removes it: both return
    it. *)
Lemma get_retry_emails_hands_back_twice :
  ~ hands_back_at_most_once [false; true; false; true] 10 10 [(queued "M" 0, 5)].
Proof.
  intros H.
  apply (H [queued "M" 0] [queued "M" 0] [] eq_refl (queued "M" 0)); left; reflexivity.
Qed.



(** ** The theorems at sample inputs *)



(** Normal A, normal B, then high-priority C: the order out is C, A, B. *)
Lemma dequeue_priority_order_witness :
  cancel_requested (idle_world 0) = false /\
  main_q (redis (idle_world 0)) = [] /\
  exists w',
    (enqueue_all [(1, mail "A", false); (2, mail "B", false); (3, mail "C", true)] ;;
     dequeue_all 3) (idle_world 0)
    = (Ret [queued "C" 3; queued "A" 1; queued "B" 2], w') /\
    main_q (redis w') = [].
Proof.
  split; [reflexivity|]. split; [reflexivity|].
  apply (dequeue_priority_order
           [(1, mail "A", false); (2, mail "B", false); (3, mail "C", true)]
           (idle_world 0)); reflexivity.
Defined.

(** One entry due at 5, one at 50, the clock at 10: the first is returned. *)
Lemma get_retry_emails_sequential_witness :
  let w := mkWorld (mkStore [] [(queued "A" 0, 5); (queued "B" 0, 50)] []) 10 None
             true true false 0 [] [] in
  cancel_requested w = false /\
  NoDup (map fst (retry_q (redis w))) /\
  exists due w', get_retry_emails w = (Ret due, w') /\ NoDup due.
Proof.
  intros w.
  assert (Hc : cancel_requested w = false) by reflexivity.
  assert (Hz : NoDup (map fst (retry_q (redis w)))).
  { cbn. constructor.
    - intros [H|[]]. discriminate H.
    - constructor; [intros []|constructor]. }
  split; [exact Hc|]. split; [exact Hz|].
  destruct (get_retry_emails_sequential w Hc Hz) as [due [w' [Hrun [Hnd _]]]].
  exists due, w'. split; assumption.
Defined.


(** A worker that never started: [stop] changes nothing. *)
Lemma stop_idempotent_witness :
  let w := mkWorld empty_store 0 None false false false 0 [] [] in
  running w = false /\
  stop None w = (Ret tt, w) /\
  (forall task', stop task' (snd (stop None (idle_world 0)))
                 = (Ret tt, snd (stop None (idle_world 0)))).
Proof.
  intros w. split; [reflexivity|]. split.
  - apply (proj1 (stop_idempotent None w)). reflexivity.
  - destruct (proj2 (stop_idempotent None (idle_world 0)))
      with (r := fst (stop None (idle_world 0))) (w' := snd (stop None (idle_world 0)))
      as [_ H].
    + intros t Ht. discriminate Ht.
    + reflexivity.
    + exact H.
Defined.



(** A message for the account "support", which is not configured. *)
Lemma send_email_total_witness :
  let email := EmailMessage.mk ["user@example.com"%string] "Hi" (Some "hello"%string)
                 None None "normal" (Some "support"%string) in
  cancel_requested (idle_world 0) = false /\
  rate_limit_gate (idle_world 0) = (Ret tt, idle_world 0) /\
  exists result w',
    send_email (sample_env 3 300 10) email (idle_world 0) = (Ret result, w') /\
    EmailResult.status result = FAILED /\
    EmailResult.error result
    = Some "SMTP account 'support' not found. Available accounts: default"%string.
Proof.
  intros email. split; [reflexivity|]. split; [reflexivity|].
  destruct (send_email_total (sample_env 3 300 10) email (idle_world 0) (idle_world 0)
              eq_refl eq_refl)
    as [result [w' [Hrun [_ Hunknown]]]].
  exists result, w'. split; [exact Hrun|].
  apply Hunknown. reflexivity.
Defined.

(** ** The further properties at sample inputs *)

Lemma worker_keeps_retry_set_below_max_witness :
  let env := sample_env 3 300 10 in
  let w := mkWorld (mkStore [queued "M" 0] [] []) 0 None true true false 0 [] [] in
  retry_below_max env (redis w) /\
  retry_below_max env (redis (snd (poll_cycle env w))) /\
  retry_below_max env (redis (snd (_process_loop env 2 w))).
Proof.
  intros env w.
  assert (H : retry_below_max env (redis w)) by (unfold retry_below_max; cbn; constructor).
  split; [exact H|]. exact (worker_keeps_retry_set_below_max env 2 w H).
Defined.

Lemma _cleanup_timestamps_sorted_witness :
  let rl := RateLimiter.mk 2 None [5; 3600000010] [] in
  StronglySorted Z.le (RateLimiter.hourly_timestamps rl) /\
  StronglySorted Z.le (RateLimiter.minute_timestamps rl) /\
  RateLimiter.hourly_timestamps (_cleanup_timestamps 3600000005 rl) = [5; 3600000010].
Proof.
  intros rl.
  assert (H1 : StronglySorted Z.le (RateLimiter.hourly_timestamps rl))
    by (cbn; repeat constructor; lia).
  assert (H2 : StronglySorted Z.le (RateLimiter.minute_timestamps rl))
    by (cbn; constructor).
  split; [exact H1|]. split; [exact H2|].
  rewrite (proj1 (_cleanup_timestamps_sorted 3600000005 rl H1 H2)). reflexivity.
Defined.

Lemma acquire_over_limit_only_at_edge_witness :
  let w := limited_world 1 0 in
  let rl := RateLimiter.init 1 None in
  rate_limiter w = Some rl /\
  truthy_int (RateLimiter.max_per_minute rl) = false /\
  cancel_requested w = false /\
  0 < RateLimiter.max_per_hour rl /\
  exists w',
    acquire w = (Ret tt, w') /\
    hourly_window w'
    = drop_older (clock w - timedelta_hours 1) (RateLimiter.hourly_timestamps rl)
      ++ [clock w'] /\
    (Z.of_nat (List.length (hourly_window w')) <= RateLimiter.max_per_hour rl
     \/ hd_error (hourly_window w') = Some (clock w' - timedelta_hours 1)).
Proof.
  intros w rl. do 3 (split; [reflexivity|]). split; [cbn; lia|].
  apply (acquire_over_limit_only_at_edge w rl); [reflexivity..|cbn; lia].
Defined.


Lemma acquire_first_permits_at_once_witness :
  let w := limited_world 3 7 in
  rate_limiter w = Some (RateLimiter.init 3 None) /\
  truthy_int None = false /\
  cancel_requested w = false /\
  Z.of_nat 3 <= 3 /\
  exists w',
    acquire_times 3 w = (Ret tt, w') /\
    clock w' = 7 /\
    trace w' = [] /\
    hourly_window w' = [7; 7; 7].
Proof.
  intros w. do 3 (split; [reflexivity|]). split; [cbn; lia|].
  apply (acquire_first_permits_at_once 3 None 3 w); [reflexivity..|cbn; lia].
Defined.

Lemma acquire_waits_for_oldest_witness :
  let rl := RateLimiter.mk 1 None [100] [] in
  let w := mkWorld empty_store 200 (Some rl) true true false 0 [] [] in
  rate_limiter w = Some rl /\
  truthy_int (RateLimiter.max_per_minute rl) = false /\
  cancel_requested w = false /\
  drop_older (clock w - timedelta_hours 1) (RateLimiter.hourly_timestamps rl) = [100] /\
  RateLimiter.max_per_hour rl <= Z.of_nat (List.length [100]) /\
  clock w - timedelta_hours 1 < 100 /\
  exists w',
    acquire w = (Ret tt, w') /\
    clock w' = 100 + timedelta_hours 1 /\
    trace w' = trace w ++ [Sleep (100 + timedelta_hours 1 - clock w)] /\
    last (hourly_window w') 0 = 100 + timedelta_hours 1.
Proof.
  intros rl w. do 4 (split; [reflexivity|]).
  split; [cbn; lia|]. split; [cbn; lia|].
  apply (acquire_waits_for_oldest w rl 100 []);
    [reflexivity|reflexivity|reflexivity|reflexivity|cbn; lia|cbn; lia].
Defined.

Lemma acquire_validated_returns_witness :
  let w := limited_world 1 0 in
  let rl := RateLimiter.init 1 None in
  rate_limiter w = Some rl /\
  validated rl /\
  cancel_requested w = false /\
  exists w' rl',
    acquire w = (Ret tt, w') /\
    cancel_requested w' = false /\
    rate_limiter w' = Some rl' /\
    validated rl' /\
    RateLimiter.max_per_hour rl' = RateLimiter.max_per_hour rl /\
    RateLimiter.max_per_minute rl' = RateLimiter.max_per_minute rl /\
    last (RateLimiter.hourly_timestamps rl') 0 = clock w'.
Proof.
  intros w rl.
  assert (Hv : validated rl) by (split; reflexivity).
  split; [reflexivity|]. split; [exact Hv|]. split; [reflexivity|].
  exact (acquire_validated_returns w rl eq_refl Hv eq_refl).
Defined.

Lemma acquire_unvalidated_raises_witness :
  let w := limited_world 0 0 in
  let rl := RateLimiter.init 0 None in
  rate_limiter w = Some rl /\
  RateLimiter.hourly_timestamps rl = [] /\
  RateLimiter.max_per_hour rl <= 0 /\
  exists w',
    acquire w = (Raise (Exception "deque index out of range"), w') /\
    hourly_window w' = [] /\
    clock w' = clock w /\
    trace w' = trace w.
Proof.
  intros w rl. do 2 (split; [reflexivity|]). split; [cbn; lia|].
  apply (acquire_unvalidated_raises w rl); [reflexivity|reflexivity|cbn; lia].
Defined.

Lemma enqueue_then_dequeue_witness :
  let w := idle_world 5 in
  let item := QueuedEmail.mk (mail "A") 5 0 None None in
  cancel_requested w = false /\
  exists w',
    (enqueue (mail "A") true ;; dequeue 0) w = (Ret (Some item), w') /\
    redis w' = redis w.
Proof.
  intros w item. split; [reflexivity|].
  exact (proj1 (enqueue_then_dequeue (mail "A") w eq_refl)).
Defined.



Lemma enqueue_all_sizes_witness :
  let ops := [(1, mail "A", true); (2, mail "B", false)] in
  let w := idle_world 0 in
  cancel_requested w = false /\
  exists w',
    enqueue_all ops w = (Ret tt, w') /\
    fst (get_queue_size w') = Ret 2.
Proof.
  intros ops w. split; [reflexivity|].
  destruct (enqueue_all_sizes ops w eq_refl) as [w' [Hrun [Hsize _]]].
  exists w'. split; [exact Hrun|exact Hsize].
Defined.

Lemma _process_loop_runs_until_stopped_witness :
  let env := sample_env 3 300 10 in
  let w := idle_world 0 in
  running w = true /\
  cancel_requested w = false /\
  exists w',
    _process_loop env 2 w = (OutOfFuel, w') /\
    running w' = true /\ cancel_requested w' = false.
Proof.
  intros env w. do 2 (split; [reflexivity|]).
  exact (_process_loop_runs_until_stopped env 2 w eq_refl eq_refl).
Defined.

Lemma stop_while_sleeping_witness :
  let env := sample_env 3 300 10 in
  let w := idle_world 0 in
  running w = true /\
  exists w',
    stop (Some (suspended_loop env (ret tt) 1)) w = (Ret tt, w') /\
    redis w' = redis w /\ outbox w' = outbox w /\
    smtp_calls w' = smtp_calls w /\ clock w' = clock w /\
    running w' = false /\ connected w' = false /\ cancel_requested w' = false.
Proof.
  intros env w. split; [reflexivity|].
  exact (stop_while_sleeping env 1 w eq_refl).
Defined.


Lemma send_email_fails_before_transport_witness :
  let env := sample_env 3 300 10 in
  let email := EmailMessage.mk ["user@example.com"%string] "Hi" (Some "hello"%string)
                 None (Some "welcome.html"%string) "normal" None in
  rate_limit_gate (idle_world 0) = (Ret tt, idle_world 0) /\
  send_email env email (idle_world 0)
  = (Ret (EmailResult.mk FAILED None
            (Some "Templates are not enabled in configuration"%string) None 0
            (Some "default"%string)),
     idle_world 0).
Proof.
  intros env email. split; [reflexivity|].
  exact (send_email_fails_before_transport env email (idle_world 0) (idle_world 0)
           eq_refl eq_refl eq_refl).
Defined.


Lemma clear_empties_one_segment_witness :
  let w := mkWorld (mkStore [queued "M" 0] [] [queued "D" 0]) 0 None true true false 0
             [] [] in
  cancel_requested w = false /\
  fst ((clear_queue ;; sizes) w) = Ret (0, 0, 1) /\
  fst ((clear_queue ;; dequeue 0) w) = Ret None.
Proof.
  intros w. split; [reflexivity|].
  destruct (clear_empties_one_segment 5 w eq_refl) as [H1 [_ [_ [H4 _]]]].
  split; [exact H1|exact H4].
Defined.
